(** * OpenAstroTracker firmware: keypad debouncer, LCD menu and display
      backends

    A shallow embedding of [KeypadDevice] (KeypadDevice.cpp/.hpp),
    [FullLcdMenu] (LcdMenu.cpp/.hpp) and the character translation of the
    display backends (DisplayDevice.cpp/.hpp), with the properties the
    specification states about them.

    Conventions.  A [byte] is a [Z] in [0, 256), a [uint32_t] a [Z] in
    [0, 2^32); the places where C++ converts to such a type are written
    [to_byte] and [to_uint32].  A C string is the [string] of its
    characters before the terminator.  Member functions take the object
    as first argument and return the updated object; a function whose
    C++ body can index out of an array returns an [option]. *)

From Stdlib Require Import ZArith Lia Bool Ascii String.
From stdpp Require Import base option list.

Open Scope Z_scope.

Definition to_byte (z : Z) : Z := z mod 256.
Definition to_uint32 (z : Z) : Z := z mod 2 ^ 32.

(** ** KeypadDevice *)

Module Keypad.

(** [enum KeypadState], KeypadDevice.hpp. *)
Inductive KeypadState : Set :=
  | btnNONE | btnRIGHT | btnUP | btnDOWN | btnLEFT | btnSELECT.

(** The enumerator values, which is what the [byte] fields store. *)
Definition keyCode (k : KeypadState) : Z :=
  match k with
  | btnNONE => 0 | btnRIGHT => 1 | btnUP => 2
  | btnDOWN => 3 | btnLEFT => 4 | btnSELECT => 5
  end.

(** [LcdKeypadShieldKeypadDevice::readKeypadState]: the analog sample of
    the resistor ladder is quantised against fixed thresholds. *)
Definition LcdKeypadShield_readKeypadState (analogValue : Z) : KeypadState :=
  if 1000 <? analogValue then btnNONE
  else if analogValue <? 50 then btnRIGHT
  else if analogValue <? 240 then btnUP
  else if analogValue <? 400 then btnDOWN
  else if analogValue <? 600 then btnLEFT
  else if analogValue <? 920 then btnSELECT
  else btnNONE.

(** [MiniJoystickKeypadDevice::readKeypadState]: a sequence of
    independent tests, the last one that holds wins. *)
Definition MiniJoystick_readKeypadState (x y : Z) (push : bool) : KeypadState :=
  let MIDSCALE := 4096 / 2 in
  let DEADBAND := 500 in
  let keyState := btnNONE in
  let keyState := if MIDSCALE + DEADBAND <? x then btnRIGHT else keyState in
  let keyState := if x <? MIDSCALE - DEADBAND then btnLEFT else keyState in
  let keyState := if MIDSCALE + DEADBAND <? y then btnUP else keyState in
  let keyState := if y <? MIDSCALE - DEADBAND then btnDOWN else keyState in
  if push then btnSELECT else keyState.

(** What one call of [debounceKeypad] obtains from its environment: the
    result of [readKeypadState] (key and analog sample) and the value of
    [millis()]. *)
Record Poll : Set := mkPoll {
  raw : KeypadState;
  analog : Z;
  now : Z
}.

(** The data members of [KeypadDevice]. *)
Record KeypadDevice : Set := mkKeypad {
  _currentKey : Z;      (* byte: most recent raw state *)
  _analogKeyValue : Z;  (* int16_t *)
  _lastKeyChange : Z;   (* uint32_t: time of the most recent raw change *)
  _lastKey : Z;         (* byte: raw state at that change *)
  _newKey : Z;          (* byte: the debounced key *)
  _lastNewKey : Z       (* byte: the key last reported by keyChanged *)
}.

Definition DEBOUNCE_PERIOD : Z := 5.

(** The constructor: [_currentKey(-1), _analogKeyValue(0),
    _lastKeyChange(0), _lastKey(-2), _newKey(-1), _lastNewKey(-2)]. *)
Definition init : KeypadDevice :=
  {| _currentKey := to_byte (-1);
     _analogKeyValue := 0;
     _lastKeyChange := 0;
     _lastKey := to_byte (-2);
     _newKey := to_byte (-1);
     _lastNewKey := to_byte (-2) |}.

(** [KeypadDevice::debounceKeypad].  The comparison
    [millis() - _lastKeyChange > DEBOUNCE_PERIOD] is made in
    [unsigned long]: the difference wraps modulo 2^32. *)
Definition debounceKeypad (d : KeypadDevice) (p : Poll) : KeypadDevice :=
  let cur := keyCode (raw p) in
  if negb (cur =? _lastKey d) then
    {| _currentKey := cur;
       _analogKeyValue := analog p;
       _lastKeyChange := to_uint32 (now p);
       _lastKey := cur;
       _newKey := _newKey d;
       _lastNewKey := _lastNewKey d |}
  else if DEBOUNCE_PERIOD <? to_uint32 (to_uint32 (now p) - _lastKeyChange d) then
    {| _currentKey := cur;
       _analogKeyValue := analog p;
       _lastKeyChange := _lastKeyChange d;
       _lastKey := _lastKey d;
       _newKey := cur;
       _lastNewKey := _lastNewKey d |}
  else
    {| _currentKey := cur;
       _analogKeyValue := analog p;
       _lastKeyChange := _lastKeyChange d;
       _lastKey := _lastKey d;
       _newKey := _newKey d;
       _lastNewKey := _lastNewKey d |}.

(** [KeypadDevice::currentKey] and [KeypadDevice::currentState]: the new
    object and the returned byte. *)
Definition currentKey (d : KeypadDevice) (p : Poll) : KeypadDevice * Z :=
  let d' := debounceKeypad d p in (d', _newKey d').

Definition currentState (d : KeypadDevice) (p : Poll) : KeypadDevice * Z :=
  let d' := debounceKeypad d p in (d', _currentKey d').

(** [KeypadDevice::keyChanged(byte* pNewKey)].  [mem] is the byte that
    [pNewKey] points to before the call; the result is the returned
    flag, the new object and the byte [pNewKey] points to afterwards. *)
Definition keyChanged (d : KeypadDevice) (p : Poll) (mem : Z) : bool * KeypadDevice * Z :=
  let d' := debounceKeypad d p in
  if negb (_newKey d' =? _lastNewKey d') then
    (true,
     {| _currentKey := _currentKey d';
        _analogKeyValue := _analogKeyValue d';
        _lastKeyChange := _lastKeyChange d';
        _lastKey := _lastKey d';
        _newKey := _newKey d';
        _lastNewKey := _newKey d' |},
     _newKey d')
  else (false, d', mem).

(** The three components of the result of [keyChanged]. *)
Definition changed (c : bool * KeypadDevice * Z) : bool := fst (fst c).
Definition device (c : bool * KeypadDevice * Z) : KeypadDevice := snd (fst c).
Definition pointee (c : bool * KeypadDevice * Z) : Z := snd c.

(** Polls applied to a device, the most recent first: each of
    [currentKey], [currentState], [currentAnalogState] and [keyChanged]
    begins with one [debounceKeypad]. *)
Fixpoint polledFrom (d : KeypadDevice) (h : list Poll) : KeypadDevice :=
  match h with
  | [] => d
  | p :: h' => debounceKeypad (polledFrom d h') p
  end.

(** The device after the history [h] of polls since its construction. *)
Definition polled (h : list Poll) : KeypadDevice := polledFrom init h.

(** [sinceChange K h = Some t0]: the most recent polls of [h] all read
    the raw key [K], back to the poll at time [t0] that read it first
    (the last raw-key change). *)
Fixpoint sinceChange (K : KeypadState) (h : list Poll) : option Z :=
  match h with
  | [] => None
  | p :: h' =>
      if keyCode (raw p) =? keyCode K then
        match sinceChange K h' with
        | Some t0 => Some t0
        | None => Some (to_uint32 (now p))
        end
      else None
  end.

(** The poll [p], made after the history [h], reads a raw key that has
    been read unchanged for longer than [DEBOUNCE_PERIOD]. *)
Definition sustained (K : KeypadState) (h : list Poll) (p : Poll) : Prop :=
  raw p = K /\
  exists t0, sinceChange K h = Some t0 /\ DEBOUNCE_PERIOD < to_uint32 (now p - t0).

(** No poll of [f] (most recent first, made after [base]) completes a
    sustained read of a raw key other than [K]. *)
Fixpoint noOtherSustained (K : KeypadState) (base f : list Poll) : Prop :=
  match f with
  | [] => True
  | q :: f' =>
      (raw q <> K -> ~ sustained (raw q) (f' ++ base) q) /\
      noOtherSustained K base f'
  end.

End Keypad.

(** ** Display backends *)

Module Display.

(** Every backend declares the 1602 geometry. *)
Definition NUM_ROWS : Z := 2.
Definition NUM_COLUMNS : Z := 16.

Definition charCode (ch : ascii) : Z := Z.of_nat (nat_of_ascii ch).

(** *** HD44780 backends (parallel shield, MCP23008, MCP23017) *)

(** [enum SpecialSymbols]: the CGRAM slots of the custom glyphs. *)
Definition SYMBOL_DEGREES : Z := 0.
Definition SYMBOL_MINUTES : Z := 1.
Definition SYMBOL_LEFT_ARROW : Z := 2.
Definition SYMBOL_RIGHT_ARROW : Z := 3.
Definition SYMBOL_UP_ARROW : Z := 4.
Definition SYMBOL_DOWN_ARROW : Z := 5.
Definition SYMBOL_NO_TRACKING : Z := 6.
Definition SYMBOL_TRACKING : Z := 7.

(** [HD44780DisplayDevice::translateChar]; [printChar] of these backends
    is [_lcd.write(translateChar(ch))]. *)
Definition translateChar (ch : ascii) : Z :=
  if Ascii.eqb ch "@" then SYMBOL_DEGREES
  else if Ascii.eqb ch "'" then SYMBOL_MINUTES
  else if Ascii.eqb ch "<" then SYMBOL_LEFT_ARROW
  else if Ascii.eqb ch ">" then SYMBOL_RIGHT_ARROW
  else if Ascii.eqb ch "^" then SYMBOL_UP_ARROW
  else if Ascii.eqb ch "~" then SYMBOL_DOWN_ARROW
  else if Ascii.eqb ch "`" then SYMBOL_NO_TRACKING
  else if Ascii.eqb ch "&" then SYMBOL_TRACKING
  else to_byte (charCode ch).

(** *** SSD1306 backend *)

Inductive Font : Set :=
  | u8x8_font_7x14_1x2_f
  | u8x8_font_open_iconic_arrow_1x1
  | u8x8_font_open_iconic_thing_1x1.

(** The two drawing entry points of the U8x8 library that [printChar]
    uses, with their arguments (column, row, glyph code). *)
Inductive DrawCall : Set :=
  | draw1x2Glyph (x y code : Z)
  | drawGlyph (x y code : Z).

(** The part of the U8x8 object that [printChar] reads and writes: the
    selected font, the text cursor and the glyphs drawn so far (most
    recent first, each with the font it was drawn in). *)
Record U8X8 : Set := mkU8X8 {
  font : Font;
  u8tx : Z;
  u8ty : Z;
  drawn : list (Font * DrawCall)
}.

Definition glyph1x2 (lcd : U8X8) (f : Font) (code : Z) : U8X8 :=
  {| font := f; u8tx := to_byte (u8tx lcd + 1); u8ty := u8ty lcd;
     drawn := (f, draw1x2Glyph (u8tx lcd) (u8ty lcd) code) :: drawn lcd |}.

Definition glyph (lcd : U8X8) (f : Font) (code : Z) : U8X8 :=
  {| font := f; u8tx := to_byte (u8tx lcd + 1); u8ty := u8ty lcd;
     drawn := (f, drawGlyph (u8tx lcd) (u8ty lcd) code) :: drawn lcd |}.

(** [SSD1306DisplayDevice::printChar]. *)
Definition SSD1306_printChar (lcd : U8X8) (ch : ascii) : U8X8 :=
  if Ascii.eqb ch ">" then glyph1x2 lcd u8x8_font_open_iconic_arrow_1x1 (64 + 14)
  else if Ascii.eqb ch "<" then glyph1x2 lcd u8x8_font_open_iconic_arrow_1x1 (64 + 13)
  else if Ascii.eqb ch "^" then glyph1x2 lcd u8x8_font_open_iconic_arrow_1x1 (64 + 15)
  else if Ascii.eqb ch "~" then glyph1x2 lcd u8x8_font_open_iconic_arrow_1x1 (64 + 12)
  else if Ascii.eqb ch "@" then glyph lcd u8x8_font_7x14_1x2_f 176
  else if Ascii.eqb ch "&" then glyph1x2 lcd u8x8_font_open_iconic_thing_1x1 (64 + 15)
  else if Ascii.eqb ch "`" then glyph1x2 lcd u8x8_font_open_iconic_thing_1x1 (64 + 4)
  else glyph lcd u8x8_font_7x14_1x2_f (to_byte (charCode ch)).

(** What the final branch ("No translation") of [printChar] does. *)
Definition SSD1306_literal (lcd : U8X8) (ch : ascii) : U8X8 :=
  glyph lcd u8x8_font_7x14_1x2_f (to_byte (charCode ch)).

(** The eight characters of the substitution table in the documentation
    of [DisplayDeviceInterface::printChar]. *)
Definition reserved : list ascii :=
  ["@"; "'"; "<"; ">"; "^"; "~"; "`"; "&"]%char.

(** *** The display as the menu sees it

    The menu drives its backend through [setCursor] and [printChar]
    only.  The device is modelled after the contract documented at
    [DisplayDeviceInterface]: [setCursor] moves the cursor to a column
    and row, [printChar] puts a character at the cursor and moves the
    cursor one column to the right, wrapping to the next row.  [screen]
    holds the characters handed to [printChar] (before the backend's
    glyph translation); [calls] records every backend call, the most
    recent first. *)

Inductive DisplayOp : Set :=
  | OpSetCursor (col row : Z)
  | OpPrintChar (ch : ascii).

Record DisplayDevice : Set := mkDisplay {
  screen : list (list ascii);
  tx : nat;
  ty : nat;
  calls : list DisplayOp
}.

Definition blankRow : list ascii := replicate (Z.to_nat NUM_COLUMNS) " "%char.

(** A display that has just been initialised: blank, cursor at home. *)
Definition blank : DisplayDevice :=
  {| screen := replicate (Z.to_nat NUM_ROWS) blankRow; tx := 0; ty := 0; calls := [] |}.

Definition setCursor (d : DisplayDevice) (col row : Z) : DisplayDevice :=
  {| screen := screen d; tx := Z.to_nat col; ty := Z.to_nat row;
     calls := OpSetCursor col row :: calls d |}.

Definition printChar (d : DisplayDevice) (ch : ascii) : DisplayDevice :=
  {| screen := alter (fun r => <[tx d := ch]> r) (ty d) (screen d);
     tx := if decide (S (tx d) < Z.to_nat NUM_COLUMNS)%nat then S (tx d) else 0%nat;
     ty := if decide (S (tx d) < Z.to_nat NUM_COLUMNS)%nat then ty d else S (ty d);
     calls := OpPrintChar ch :: calls d |}.

(** [for (i = 0; i < line.length(); i++) printChar(line[i])]. *)
Fixpoint printString (d : DisplayDevice) (line : string) : DisplayDevice :=
  match line with
  | EmptyString => d
  | String ch rest => printString (printChar d ch) rest
  end.

(** [n] times [printChar(' ')]. *)
Fixpoint printSpaces (n : nat) (d : DisplayDevice) : DisplayDevice :=
  match n with
  | O => d
  | S n' => printSpaces n' (printChar d " ")
  end.

(** Characters printed one after the other. *)
Fixpoint printList (d : DisplayDevice) (cs : list ascii) : DisplayDevice :=
  match cs with
  | [] => d
  | ch :: rest => printList (printChar d ch) rest
  end.

(** Every row of the screen has the width of the display. *)
Definition wellShaped (d : DisplayDevice) : Prop :=
  Forall (fun r => length r = Z.to_nat NUM_COLUMNS) (screen d).

(** The characters shown on a row. *)
Definition shown (d : DisplayDevice) (row : nat) : option (list ascii) :=
  screen d !! row.

End Display.

(** ** FullLcdMenu *)

Module Menu.
Import Display.

(** [class MenuItem]: what to show and the id of the item. *)
Record MenuItem : Set := mkItem {
  display : string;
  id : Z                (* byte *)
}.

(** The data members of [FullLcdMenu].  [_menuItems] holds the slots of
    the array that have been filled, so that [_numMenuItems] is its
    length; [_brightness] (read from the EEPROM in [startup]) is left
    out. *)
Record FullLcdMenu : Set := mkMenu {
  _maxItems : Z;              (* byte *)
  _menuItems : list MenuItem;
  _activeMenuIndex : Z;       (* byte *)
  _longestDisplay : Z;        (* byte *)
  _activeRow : Z;             (* byte *)
  _activeCol : Z;             (* byte *)
  _lastDisplay : list string; (* String[NUM_ROWS] *)
  _display : DisplayDevice;
  _keypad : Keypad.KeypadDevice
}.

Definition _numMenuItems (m : FullLcdMenu) : Z := Z.of_nat (length (_menuItems m)).

Definition with_menuItems (m : FullLcdMenu) (items : list MenuItem) (longest : Z) : FullLcdMenu :=
  {| _maxItems := _maxItems m; _menuItems := items;
     _activeMenuIndex := _activeMenuIndex m; _longestDisplay := longest;
     _activeRow := _activeRow m; _activeCol := _activeCol m;
     _lastDisplay := _lastDisplay m; _display := _display m; _keypad := _keypad m |}.

Definition with_activeMenuIndex (m : FullLcdMenu) (i : Z) : FullLcdMenu :=
  {| _maxItems := _maxItems m; _menuItems := _menuItems m;
     _activeMenuIndex := i; _longestDisplay := _longestDisplay m;
     _activeRow := _activeRow m; _activeCol := _activeCol m;
     _lastDisplay := _lastDisplay m; _display := _display m; _keypad := _keypad m |}.

Definition with_cursor (m : FullLcdMenu) (col row : Z) : FullLcdMenu :=
  {| _maxItems := _maxItems m; _menuItems := _menuItems m;
     _activeMenuIndex := _activeMenuIndex m; _longestDisplay := _longestDisplay m;
     _activeRow := row; _activeCol := col;
     _lastDisplay := _lastDisplay m; _display := _display m; _keypad := _keypad m |}.

Definition with_lastDisplay (m : FullLcdMenu) (cache : list string) : FullLcdMenu :=
  {| _maxItems := _maxItems m; _menuItems := _menuItems m;
     _activeMenuIndex := _activeMenuIndex m; _longestDisplay := _longestDisplay m;
     _activeRow := _activeRow m; _activeCol := _activeCol m;
     _lastDisplay := cache; _display := _display m; _keypad := _keypad m |}.

Definition with_display (m : FullLcdMenu) (d : DisplayDevice) : FullLcdMenu :=
  {| _maxItems := _maxItems m; _menuItems := _menuItems m;
     _activeMenuIndex := _activeMenuIndex m; _longestDisplay := _longestDisplay m;
     _activeRow := _activeRow m; _activeCol := _activeCol m;
     _lastDisplay := _lastDisplay m; _display := d; _keypad := _keypad m |}.

(** [FullLcdMenu::FullLcdMenu(int maxItems)]. *)
Definition create (maxItems : Z) : FullLcdMenu :=
  {| _maxItems := to_byte maxItems; _menuItems := [];
     _activeMenuIndex := 0; _longestDisplay := 0;
     _activeRow := to_byte (-1); _activeCol := to_byte (-1);
     _lastDisplay := replicate (Z.to_nat NUM_ROWS) EmptyString;
     _display := blank; _keypad := Keypad.init |}.

(** [FullLcdMenu::findById]: [None] is the [NULL] result. *)
Fixpoint findById_loop (items : list MenuItem) (id0 : Z) : option MenuItem :=
  match items with
  | [] => None
  | item :: rest => if id item =? id0 then Some item else findById_loop rest id0
  end.

Definition findById (m : FullLcdMenu) (id0 : Z) : option MenuItem :=
  findById_loop (_menuItems m) id0.

(** [FullLcdMenu::addItem].  Storing into a full array is out of
    bounds: [None]. *)
Definition addItem (m : FullLcdMenu) (disp : string) (id0 : Z) : option FullLcdMenu :=
  if _numMenuItems m <? _maxItems m then
    Some (with_menuItems m (_menuItems m ++ [mkItem disp (to_byte id0)])
            (to_byte (Z.max (_longestDisplay m) (Z.of_nat (String.length disp)))))
  else None.

(** [FullLcdMenu::getActive]: [None] when [_activeMenuIndex] is not the
    index of an item. *)
Definition getActive (m : FullLcdMenu) : option Z :=
  id <$> _menuItems m !! Z.to_nat (_activeMenuIndex m).

(** The loop of [FullLcdMenu::setActive], from index [i] on: the index
    at which it breaks, if it does. *)
Fixpoint setActive_loop (items : list MenuItem) (i : Z) (id0 : Z) : option Z :=
  match items with
  | [] => None
  | item :: rest => if id item =? id0 then Some i else setActive_loop rest (i + 1) id0
  end.

(** [FullLcdMenu::setActive]. *)
Definition setActive (m : FullLcdMenu) (id0 : Z) : FullLcdMenu :=
  match setActive_loop (_menuItems m) 0 id0 with
  | Some i => with_activeMenuIndex m i
  | None => m
  end.

(** [FullLcdMenu::setCursor]: only the menu's own cursor moves. *)
Definition setCursor (m : FullLcdMenu) (col row : Z) : FullLcdMenu :=
  with_cursor m col row.

(** [FullLcdMenu::printMenu].  [_lastDisplay[_activeRow]] is out of
    bounds when [_activeRow] is not a row: [None]. *)
Definition printMenu (m : FullLcdMenu) (line : string) : option FullLcdMenu :=
  match _lastDisplay m !! Z.to_nat (_activeRow m) with
  | None => None
  | Some last =>
      if negb (String.eqb last line) || negb (_activeCol m =? 0) then
        let cache := <[Z.to_nat (_activeRow m) := line]> (_lastDisplay m) in
        let d := Display.setCursor (_display m) (_activeCol m) (_activeRow m) in
        let spaces := NUM_COLUMNS - Z.of_nat (String.length line) in
        let d := printString d line in
        let d := printSpaces (Z.to_nat spaces) d in
        Some (with_display (with_lastDisplay m cache) d)
      else Some m
  end.

(** [FullLcdMenu::printAt(int col, int row, char ch)]. *)
Definition printAt (m : FullLcdMenu) (col row : Z) (ch : ascii) : FullLcdMenu :=
  with_display m (printChar (Display.setCursor (_display m) (to_byte col) (to_byte row)) ch).

(** [sprintf(scratchBuffer, "%c%s%c", ...)] into [char scratchBuffer[12]]:
    [None] when the text and its terminator do not fit. *)
Definition sprintf_item (isActive : bool) (item : MenuItem) : option string :=
  let text :=
    String (if isActive then ">" else " ")%char
      (display item ++ String (if isActive then "<" else " ")%char EmptyString)%string in
  if Z.of_nat (String.length text) <? 12 then Some text else None.

(** The first loop of [updateDisplay], from item [i] on: the menu string
    and the offset of the active item in it. *)
Fixpoint buildMenuString (items : list MenuItem) (i active : Z)
    (menuString : string) (offsetToActive offset : Z) : option (string * Z) :=
  match items with
  | [] => Some (menuString, offsetToActive)
  | item :: rest =>
      let isActive := i =? active in
      match sprintf_item isActive item with
      | None => None
      | Some scratchBuffer =>
          buildMenuString rest (i + 1) active
            (menuString ++ scratchBuffer)%string
            (if isActive then offset else offsetToActive)
            (to_byte (offset + Z.of_nat (String.length scratchBuffer)))
      end
  end.

(** [while (offsetIntoString < 0) { *(pBufMenu++) = ' '; offsetIntoString++; }] *)
Fixpoint padFront (fuel : nat) (bufMenu : list ascii) (offsetIntoString : Z) : list ascii * Z :=
  match fuel with
  | O => (bufMenu, offsetIntoString)
  | S fuel' =>
      if offsetIntoString <? 0
      then padFront fuel' (bufMenu ++ [" "%char]) (offsetIntoString + 1)
      else (bufMenu, offsetIntoString)
  end.

(** [while ((pBufMenu < bufMenu + usableColumns) &&
            (offsetIntoString < (int)menuString.length()))
       *(pBufMenu++) = menuString[offsetIntoString++];] *)
Fixpoint copyMenu (fuel : nat) (usableColumns : Z) (menuString : string)
    (bufMenu : list ascii) (offsetIntoString : Z) : list ascii * Z :=
  match fuel with
  | O => (bufMenu, offsetIntoString)
  | S fuel' =>
      if (Z.of_nat (length bufMenu) <? usableColumns)
         && (offsetIntoString <? Z.of_nat (String.length menuString))
      then
        match String.get (Z.to_nat offsetIntoString) menuString with
        | Some ch => copyMenu fuel' usableColumns menuString (bufMenu ++ [ch]) (offsetIntoString + 1)
        | None => (bufMenu, offsetIntoString)
        end
      else (bufMenu, offsetIntoString)
  end.

(** [while (pBufMenu < bufMenu + NUM_COLUMNS) *(pBufMenu++) = ' ';] *)
Fixpoint padEnd (fuel : nat) (bufMenu : list ascii) : list ascii :=
  match fuel with
  | O => bufMenu
  | S fuel' =>
      if Z.of_nat (length bufMenu) <? NUM_COLUMNS
      then padEnd fuel' (bufMenu ++ [" "%char])
      else bufMenu
  end.

(** The row that [updateDisplay] composes in [bufMenu].  Each loop gets
    as much fuel as it can take steps: the first runs [-offsetIntoString]
    times, the other two lengthen [bufMenu] towards a bound. *)
Definition menuRow (menuString : string) (offsetToActive longestDisplay : Z) : string :=
  let usableColumns := NUM_COLUMNS - 1 in
  let margin := Z.quot (usableColumns - longestDisplay) 2 in
  let offsetIntoString := offsetToActive - margin in
  let '(bufMenu, offsetIntoString) :=
    padFront (Z.to_nat (- offsetIntoString)) [] offsetIntoString in
  let '(bufMenu, offsetIntoString) :=
    copyMenu (Z.to_nat usableColumns) usableColumns menuString bufMenu offsetIntoString in
  let bufMenu := padEnd (Z.to_nat NUM_COLUMNS) bufMenu in
  string_of_list_ascii bufMenu.

(** [FullLcdMenu::updateDisplay]. *)
Definition updateDisplay (m : FullLcdMenu) : option FullLcdMenu :=
  match buildMenuString (_menuItems m) 0 (_activeMenuIndex m) EmptyString 0 0 with
  | None => None
  | Some (menuString, offsetToActive) =>
      let m := with_display m (Display.setCursor (_display m) 0 0) in
      let m := with_cursor m 0 0 in
      match printMenu m (menuRow menuString offsetToActive (_longestDisplay m)) with
      | None => None
      | Some m => Some (setCursor m 0 1)
      end
  end.

(** Modelled from the spec: [adjustWrap] is declared in Utility.hpp
    ("Adjust the given number by the given adjustment, wrap around the
    limits.  Limits are inclusive, so they represent the lowest and
    highest valid number.") and defined in Utility.cpp, which is not
    among the embedded sources; the specification gives its use in
    [setNextActive] as [index = (index + 1) mod count]. *)
Definition adjustWrap (current adjustBy minVal maxVal : Z) : Z :=
  minVal + (current + adjustBy - minVal) mod (maxVal + 1 - minVal).

(** [FullLcdMenu::setNextActive]. *)
Definition setNextActive (m : FullLcdMenu) : option FullLcdMenu :=
  let m := with_activeMenuIndex m
             (to_byte (adjustWrap (_activeMenuIndex m) 1 0 (_numMenuItems m - 1))) in
  match updateDisplay m with
  | None => None
  | Some m =>
      let d := Display.setCursor (_display m) 0 1 in
      Some (with_display m (printSpaces (Z.to_nat NUM_COLUMNS) d))
  end.

(** [n] calls of [setNextActive] in succession. *)
Fixpoint setNextActive_times (n : nat) (m : FullLcdMenu) : option FullLcdMenu :=
  match n with
  | O => Some m
  | S n' =>
      match setNextActive m with
      | None => None
      | Some m' => setNextActive_times n' m'
      end
  end.

(** Every label fits [scratchBuffer] together with its two markers. *)
Definition labelsFit (m : FullLcdMenu) : Prop :=
  Forall (fun item => (String.length (display item) <= 9)%nat) (_menuItems m).

(** A text filled up with blanks to the width of the display. *)
Definition padded (line : string) : list ascii :=
  list_ascii_of_string line
  ++ replicate (Z.to_nat NUM_COLUMNS - String.length line) " "%char.

(** The row cache agrees with the display: every row shows its cached
    string, filled up with blanks. *)
Definition coherent (m : FullLcdMenu) : Prop :=
  forall (row : nat) (line : string),
    _lastDisplay m !! row = Some line ->
    shown (_display m) row = Some (padded line).

(** The record stands for an object: the cache array has [NUM_ROWS]
    entries, [_numMenuItems] and [_activeMenuIndex] are bytes. *)
Definition wellFormed (m : FullLcdMenu) : Prop :=
  length (_lastDisplay m) = Z.to_nat NUM_ROWS /\
  _numMenuItems m < 256 /\
  0 <= _activeMenuIndex m < 256.

(** The row is the wrapped item alone, blanks on either side. *)
Definition centredBetweenBlanks (wrapped row : string) : Prop :=
  exists l r : nat,
    list_ascii_of_string row
    = replicate l " "%char ++ list_ascii_of_string wrapped ++ replicate r " "%char.

End Menu.

(** ** Concrete objects used in the examples *)

Module Examples.
Import Keypad Display Menu.

(** RIGHT is read at 100 ms, 103 ms and 106 ms after NONE at 90 ms. *)
Definition pollsRight : list Poll :=
  [mkPoll btnRIGHT 20 103; mkPoll btnRIGHT 20 100; mkPoll btnNONE 1023 90].
Definition pollRight106 : Poll := mkPoll btnRIGHT 20 106.

(** Afterwards the contact bounces: LEFT at 108 ms, NONE at 110 ms, LEFT
    at 112 ms; then RIGHT is read again at 120 ms. *)
Definition pollsBounce : list Poll :=
  [mkPoll btnLEFT 500 112; mkPoll btnNONE 1023 110; mkPoll btnLEFT 500 108].
Definition pollRight120 : Poll := mkPoll btnRIGHT 20 120.

(** The menu with the items "A", "BB" and "CCC". *)
Definition abcItems : option FullLcdMenu :=
  addItem (create 5) "A" 1 ≫= fun m =>
  addItem m "BB" 2 ≫= fun m =>
  addItem m "CCC" 3.

(** The same menu with "CCC" made the active item. *)
Definition abcMenu : FullLcdMenu := setActive (default (create 5) abcItems) 3.

(** [abcMenu] after [updateDisplay]; the menu cursor is then at the
    start of row 1. *)
Definition abcUpdated : FullLcdMenu := default abcMenu (updateDisplay abcMenu).

(** The same with the menu cursor put back to the start of row 0. *)
Definition abcRendered : FullLcdMenu := Menu.setCursor abcUpdated 0 0.

(** [abcUpdated] after [printMenu("Hi")]: row 1 shows a submenu text. *)
Definition abcSubmenu : FullLcdMenu := default abcUpdated (printMenu abcUpdated "Hi").

(** [abcSubmenu] after [setNextActive]. *)
Definition abcNext : FullLcdMenu := default abcSubmenu (setNextActive abcSubmenu).

End Examples.

(** ** Further keypad backends and accessors *)

Module KeypadHw.
Import Keypad.

(** [NullKeypadDevice::readKeypadState]: the key and the analog value. *)
Definition Null_readKeypadState : KeypadState * Z := (btnNONE, 0).

(** [MCP23008_MCP23017KeypadDevice::readKeypadState], given what
    [_display.readButtons()] returned.  The button masks come from the
    LiquidTWI2 library and are parameters here.  The result is the key
    and the value stored into [analogValue]. *)
Section MCP.
Variables BUTTON_UP BUTTON_DOWN BUTTON_LEFT BUTTON_RIGHT BUTTON_SELECT : Z.

Definition MCP_readKeypadState (buttons : Z) : KeypadState * Z :=
  let analogValue := buttons * 50 in
  let keyState := btnNONE in
  let keyState :=
    if negb (buttons =? 0) then
      let keyState := if negb (Z.land buttons BUTTON_UP =? 0) then btnUP else keyState in
      let keyState := if negb (Z.land buttons BUTTON_DOWN =? 0) then btnDOWN else keyState in
      let keyState := if negb (Z.land buttons BUTTON_LEFT =? 0) then btnLEFT else keyState in
      let keyState := if negb (Z.land buttons BUTTON_RIGHT =? 0) then btnRIGHT else keyState in
      let keyState := if negb (Z.land buttons BUTTON_SELECT =? 0) then btnSELECT else keyState in
      keyState
    else keyState in
  (keyState, analogValue).

(** The key of the pressed button that comes last in the order UP,
    DOWN, LEFT, RIGHT, SELECT. *)
Definition MCP_priority (buttons : Z) : KeypadState :=
  if negb (Z.land buttons BUTTON_SELECT =? 0) then btnSELECT
  else if negb (Z.land buttons BUTTON_RIGHT =? 0) then btnRIGHT
  else if negb (Z.land buttons BUTTON_LEFT =? 0) then btnLEFT
  else if negb (Z.land buttons BUTTON_DOWN =? 0) then btnDOWN
  else if negb (Z.land buttons BUTTON_UP =? 0) then btnUP
  else btnNONE.
End MCP.

(** [KeypadDevice::currentAnalogState]. *)
Definition currentAnalogState (d : KeypadDevice) (p : Poll) : KeypadDevice * Z :=
  let d' := debounceKeypad d p in (d', _analogKeyValue d').

(** Every poll of the history (most recent first) reads a raw key other
    than the one read just before it; the oldest poll is compared with
    what the device [d] remembers. *)
Fixpoint bouncing (d : KeypadDevice) (h : list Poll) : Prop :=
  match h with
  | [] => True
  | p :: h' => keyCode (raw p) <> _lastKey (polledFrom d h') /\ bouncing d h'
  end.

(** Two devices that differ at most in [_lastNewKey]. *)
Definition sameDebounce (d1 d2 : KeypadDevice) : Prop :=
  _currentKey d1 = _currentKey d2 /\
  _analogKeyValue d1 = _analogKeyValue d2 /\
  _lastKeyChange d1 = _lastKeyChange d2 /\
  _lastKey d1 = _lastKey d2 /\
  _newKey d1 = _newKey d2.

End KeypadHw.

(** ** The gyro *)

Module Gyro.

(** The constants of [GyroMPU6050]. *)
Definition MPU6050_I2C_ADDR : Z := 0x68.
Definition MPU6050_REG_CONFIG : Z := 0x1A.
Definition MPU6050_REG_PWR_MGMT_1 : Z := 0x6B.
Definition MPU6050_REG_WHO_AM_I : Z := 0x75.

(** The calls made on the [Wire] object. *)
Inductive WireOp : Set :=
  | begin_ (* Wire.begin() *)
  | beginTransmission (address : Z)
  | write (value : Z)
  | endTransmission (sendStop : bool)
  | requestFrom (address quantity sendStop : Z).

(** [GyroMPU6050::startup], given the [int] that [Wire.read()] returns
    for the WHO_AM_I register (a byte, or -1 when nothing was received):
    the value of [_isPresent] and the bus calls, in order. *)
Definition startup (whoAmI : Z) : bool * list WireOp :=
  let probe :=
    [ begin_;
      beginTransmission MPU6050_I2C_ADDR; write MPU6050_REG_WHO_AM_I;
      endTransmission true; requestFrom MPU6050_I2C_ADDR 1 1 ] in
  let id := to_byte (Z.land (Z.shiftr whoAmI 1) 0x3F) in
  let _isPresent := id =? 0x34 in
  if negb _isPresent then (_isPresent, probe)
  else
    (_isPresent,
     probe ++
     [ beginTransmission MPU6050_I2C_ADDR; write MPU6050_REG_PWR_MGMT_1; write 0;
       endTransmission true;
       beginTransmission MPU6050_I2C_ADDR; write MPU6050_REG_CONFIG; write 6;
       endTransmission true ]).

End Gyro.

(** ** Reference descriptions of the rendered row *)

Module Layout.
Import Display Menu.

(** An item between its markers. *)
Definition wrapItem (isActive : bool) (item : MenuItem) : string :=
  String (if isActive then ">" else " ")%char
    (display item ++ String (if isActive then "<" else " ")%char EmptyString)%string.

(** The items from index [i] on, each between its markers. *)
Fixpoint menuText (items : list MenuItem) (i active : Z) : string :=
  match items with
  | [] => EmptyString
  | item :: rest => String.append (wrapItem (i =? active) item) (menuText rest (i + 1) active)
  end.

(** The number of characters that the items take between markers. *)
Fixpoint textLength (items : list MenuItem) : Z :=
  match items with
  | [] => 0
  | item :: rest => Z.of_nat (String.length (display item)) + 2 + textLength rest
  end.

(** The character that column [c] of the window shows: the window starts
    [margin] columns before [offsetToActive]; positions outside the menu
    string and the last column are blank. *)
Definition windowChar (menuString : string) (offsetToActive longestDisplay : Z) (c : nat) : ascii :=
  let margin := Z.quot (NUM_COLUMNS - 1 - longestDisplay) 2 in
  let position := offsetToActive - margin + Z.of_nat c in
  if (Z.of_nat c <? NUM_COLUMNS - 1) && (0 <=? position) then
    match String.get (Z.to_nat position) menuString with
    | Some ch => ch
    | None => " "%char
    end
  else " "%char.

(** The menus that [create], [addItem], [setActive], [setCursor],
    [printMenu], [printAt] and [updateDisplay] produce. *)
Inductive built : FullLcdMenu -> Prop :=
  | built_create maxItems : built (create maxItems)
  | built_addItem m disp id0 m' : built m -> addItem m disp id0 = Some m' -> built m'
  | built_setActive m id0 : built m -> built (setActive m id0)
  | built_setCursor m col row : built m -> built (Menu.setCursor m col row)
  | built_printMenu m line m' : built m -> printMenu m line = Some m' -> built m'
  | built_printAt m col row ch : built m -> built (printAt m col row ch)
  | built_updateDisplay m m' : built m -> updateDisplay m = Some m' -> built m'.

(** The length of the longest label. *)
Fixpoint maxLabel (items : list MenuItem) : Z :=
  match items with
  | [] => 0
  | item :: rest => Z.max (maxLabel rest) (Z.of_nat (String.length (display item)))
  end.

(** What holds of every menu built by these operations: the cache and
    the screen have [NUM_ROWS] rows, the screen rows [NUM_COLUMNS]
    columns, the items fit the array, the byte members are bytes and the
    active index selects an item as soon as there is one. *)
Definition sound (m : FullLcdMenu) : Prop :=
  length (_lastDisplay m) = Z.to_nat NUM_ROWS /\
  length (screen (_display m)) = Z.to_nat NUM_ROWS /\
  wellShaped (_display m) /\
  _numMenuItems m <= _maxItems m < 256 /\
  0 <= _longestDisplay m < 256 /\
  0 <= _activeMenuIndex m /\
  (_activeMenuIndex m < _numMenuItems m \/ _activeMenuIndex m = 0).

(** The call log of a [printMenu] that writes: [setCursor], the text,
    the blanks. *)
Definition printMenuCalls (col row : Z) (line : string) : list DisplayOp :=
  rev (OpPrintChar <$> padded line) ++ [OpSetCursor col row].

End Layout.

(** * Properties *)

(** ** Integer conversions *)

Lemma to_byte_small z : 0 <= z < 256 -> to_byte z = z.
Proof. intros H. unfold to_byte. apply Z.mod_small. exact H. Qed.

Lemma to_uint32_sub_l a b : to_uint32 (to_uint32 a - b) = to_uint32 (a - b).
Proof. unfold to_uint32. apply Zminus_mod_idemp_l. Qed.

(** ** The debouncer *)

Section Debounce.
Import Keypad.

Lemma keyCode_inj k1 k2 : keyCode k1 = keyCode k2 -> k1 = k2.
Proof. destruct k1, k2; simpl; intros H; first [reflexivity | discriminate H]. Qed.

Lemma keyCode_not_sentinel k : keyCode k <> _lastKey init.
Proof. destruct k; vm_compute; discriminate. Qed.

(** What one poll does to the committed key. *)
Lemma debounceKeypad_newKey d p :
  _newKey (debounceKeypad d p) =
    if (keyCode (raw p) =? _lastKey d)
       && (DEBOUNCE_PERIOD <? to_uint32 (now p - _lastKeyChange d))
    then keyCode (raw p) else _newKey d.
Proof.
  unfold debounceKeypad. rewrite to_uint32_sub_l.
  destruct (keyCode (raw p) =? _lastKey d); simpl; [|reflexivity].
  destruct (DEBOUNCE_PERIOD <? to_uint32 (now p - _lastKeyChange d)); reflexivity.
Qed.

Lemma debounceKeypad_lastNewKey d p : _lastNewKey (debounceKeypad d p) = _lastNewKey d.
Proof.
  unfold debounceKeypad.
  destruct (keyCode (raw p) =? _lastKey d); simpl; [|reflexivity].
  destruct (DEBOUNCE_PERIOD <? to_uint32 (to_uint32 (now p) - _lastKeyChange d)); reflexivity.
Qed.

Lemma debounceKeypad_lastKey d p : _lastKey (debounceKeypad d p) = keyCode (raw p).
Proof.
  unfold debounceKeypad.
  destruct (keyCode (raw p) =? _lastKey d) eqn:E; simpl; [|reflexivity].
  apply Z.eqb_eq in E.
  destruct (DEBOUNCE_PERIOD <? to_uint32 (to_uint32 (now p) - _lastKeyChange d));
    simpl; now rewrite E.
Qed.

Lemma debounceKeypad_lastKeyChange d p :
  _lastKeyChange (debounceKeypad d p) =
    if keyCode (raw p) =? _lastKey d then _lastKeyChange d else to_uint32 (now p).
Proof.
  unfold debounceKeypad.
  destruct (keyCode (raw p) =? _lastKey d); simpl; [|reflexivity].
  destruct (DEBOUNCE_PERIOD <? to_uint32 (to_uint32 (now p) - _lastKeyChange d)); reflexivity.
Qed.

Lemma polledFrom_lastNewKey d h : _lastNewKey (polledFrom d h) = _lastNewKey d.
Proof.
  induction h as [|p h IH]; simpl; [reflexivity|].
  now rewrite debounceKeypad_lastNewKey.
Qed.

(** After at least one poll the device remembers the raw key of the most
    recent poll and the time at which the current run of it began. *)
Lemma polled_tracks_change p h :
  _lastKey (polled (p :: h)) = keyCode (raw p) /\
  sinceChange (raw p) (p :: h) = Some (_lastKeyChange (polled (p :: h))).
Proof.
  change (polled (p :: h)) with (debounceKeypad (polled h) p).
  split; [apply debounceKeypad_lastKey|].
  rewrite debounceKeypad_lastKeyChange.
  revert p. induction h as [|p' h IH]; intros p.
  - cbn [sinceChange]. rewrite Z.eqb_refl.
    destruct (keyCode (raw p) =? _lastKey (polled [])) eqn:E; [|reflexivity].
    apply Z.eqb_eq in E. now apply keyCode_not_sentinel in E.
  - specialize (IH p').
    change (polled (p' :: h)) with (debounceKeypad (polled h) p').
    rewrite debounceKeypad_lastKey, debounceKeypad_lastKeyChange.
    cbn [sinceChange] in *. rewrite Z.eqb_refl in *.
    destruct (keyCode (raw p') =? keyCode (raw p)) eqn:E.
    + apply Z.eqb_eq in E. rewrite <- E, Z.eqb_refl.
      apply keyCode_inj in E. rewrite <- E.
      destruct (sinceChange (raw p') h); exact IH.
    + rewrite Z.eqb_sym, E. reflexivity.
Qed.

Lemma sinceChange_polled K h t0 :
  sinceChange K h = Some t0 ->
  _lastKey (polled h) = keyCode K /\ _lastKeyChange (polled h) = t0.
Proof.
  destruct h as [|p h]; [discriminate|]. intros H.
  assert (E : raw p = K).
  { cbn [sinceChange] in H.
    destruct (keyCode (raw p) =? keyCode K) eqn:E; [|discriminate].
    apply Z.eqb_eq in E. now apply keyCode_inj. }
  subst K. destruct (polled_tracks_change p h) as [Hk Ht].
  split; [exact Hk|]. rewrite H in Ht. now injection Ht.
Qed.

(** A sustained read is committed. *)
Lemma sustained_commits K h p :
  sustained K h p -> _newKey (debounceKeypad (polled h) p) = keyCode K.
Proof.
  intros [HK [t0 [Hs Hlt]]]. apply sinceChange_polled in Hs as [Hk Ht].
  rewrite debounceKeypad_newKey, HK, Hk, Ht, Z.eqb_refl.
  apply Z.ltb_lt in Hlt. now rewrite Hlt.
Qed.

(** The committed key only changes by committing a sustained read. *)
Lemma newKey_changes_only_when_sustained h q :
  _newKey (polled (q :: h)) <> _newKey (polled h) ->
  sustained (raw q) h q /\ _newKey (polled (q :: h)) = keyCode (raw q).
Proof.
  change (polled (q :: h)) with (debounceKeypad (polled h) q).
  rewrite debounceKeypad_newKey.
  destruct (keyCode (raw q) =? _lastKey (polled h)) eqn:E; simpl; [|congruence].
  destruct (DEBOUNCE_PERIOD <? _) eqn:L; [|congruence].
  intros _. split; [|reflexivity]. split; [reflexivity|].
  apply Z.eqb_eq in E. apply Z.ltb_lt in L.
  destruct h as [|p h].
  - now apply keyCode_not_sentinel in E.
  - destruct (polled_tracks_change p h) as [Hk Ht].
    rewrite Hk in E. apply keyCode_inj in E. rewrite E.
    eexists. split; [exact Ht | exact L].
Qed.

Lemma sustained_holds K h p f :
  sustained K h p ->
  noOtherSustained K (p :: h) f ->
  _newKey (polled (f ++ p :: h)) = keyCode K.
Proof.
  intros Hs. induction f as [|q f IH]; intros Hno.
  - now apply sustained_commits.
  - destruct Hno as [Hq Hno]. specialize (IH Hno).
    destruct (Z.eq_dec (_newKey (polled (q :: f ++ p :: h)))
                       (_newKey (polled (f ++ p :: h)))) as [E|E].
    + simpl app. congruence.
    + apply newKey_changes_only_when_sustained in E as [Hsq Hn].
      simpl app. rewrite Hn.
      destruct (Z.eq_dec (keyCode (raw q)) (keyCode K)) as [E'|E']; [exact E'|].
      exfalso. apply Hq; [|exact Hsq]. intros HE. apply E'. now rewrite HE.
Qed.

End Debounce.

(** C1.  Debounce commit and hold.  When the poll [p] reads a raw key
    [K] that has been read on every poll since the last raw-key change,
    and that change lies more than [DEBOUNCE_PERIOD] (5 ms, as measured
    by the difference of the [millis()] readings) in the past,
    [currentKey()] returns [K]; and it returns [K] again on every later
    poll [q], after any further polls [f], as long as no poll completes
    a read of a different raw value sustained for longer than
    [DEBOUNCE_PERIOD]. *)
Theorem debounce_commit_and_hold (K : Keypad.KeypadState)
    (h : list Keypad.Poll) (p : Keypad.Poll) :
  Keypad.sustained K h p ->
  snd (Keypad.currentKey (Keypad.polled h) p) = Keypad.keyCode K /\
  forall (f : list Keypad.Poll) (q : Keypad.Poll),
    Keypad.noOtherSustained K (p :: h) (q :: f) ->
    snd (Keypad.currentKey (Keypad.polled (f ++ p :: h)) q) = Keypad.keyCode K.
Proof.
  intros Hs. split.
  - exact (sustained_commits K h p Hs).
  - intros f q Hno. exact (sustained_holds K h p (q :: f) Hs Hno).
Qed.

Lemma debounce_commit_and_hold_witness :
  snd (Keypad.currentKey (Keypad.polled Examples.pollsRight) Examples.pollRight106)
    = Keypad.keyCode Keypad.btnRIGHT /\
  snd (Keypad.currentKey
         (Keypad.polled (Examples.pollsBounce ++ Examples.pollRight106 :: Examples.pollsRight))
         Examples.pollRight120)
    = Keypad.keyCode Keypad.btnRIGHT.
Proof.
  destruct (debounce_commit_and_hold Keypad.btnRIGHT
              Examples.pollsRight Examples.pollRight106) as [Hcommit Hhold].
  - split; [reflexivity|].
    exists 100. split; [reflexivity | vm_compute; reflexivity].
  - split; [exact Hcommit|].
    apply Hhold. simpl.
    repeat split; try (intros Hne; contradiction Hne; reflexivity);
      intros _ [_ [t0 [Hs _]]]; vm_compute in Hs; discriminate Hs.
Defined.

(** C3.  Edge one-shot.  Take a call of [keyChanged], then any polls
    made through the other accessors, then a second call of
    [keyChanged].  The second call returns true exactly when the
    committed key it finds differs from the committed key at the first
    call: with no change of the committed key in between it returns
    false, and it returns true again only after the committed key has
    changed. *)
Theorem keyChanged_one_shot (d : Keypad.KeypadDevice) (p1 p2 : Keypad.Poll)
    (mem1 mem2 : Z) (h : list Keypad.Poll) :
  let c1 := Keypad.keyChanged d p1 mem1 in
  let c2 := Keypad.keyChanged (Keypad.polledFrom (Keypad.device c1) h) p2 mem2 in
  Keypad.changed c2 = true <->
  Keypad._newKey (Keypad.device c2) <> Keypad._newKey (Keypad.device c1).
Proof.
  intros c1 c2.
  assert (H1 : Keypad._lastNewKey (Keypad.device c1) = Keypad._newKey (Keypad.device c1)).
  { subst c1. unfold Keypad.keyChanged.
    destruct (Keypad._newKey _ =? Keypad._lastNewKey _) eqn:E;
      unfold Keypad.device; cbn [negb fst snd]; [|reflexivity].
    apply Z.eqb_eq in E. symmetry. exact E. }
  subst c2. unfold Keypad.keyChanged.
  rewrite debounceKeypad_lastNewKey, polledFrom_lastNewKey, H1.
  destruct (Keypad._newKey _ =? Keypad._newKey _) eqn:E;
    unfold Keypad.changed, Keypad.device; cbn [negb fst snd Keypad._newKey].
  - apply Z.eqb_eq in E. split; [discriminate | contradiction].
  - apply Z.eqb_neq in E. split; [intros _; exact E | reflexivity].
Qed.

(** C10.  The out-parameter of [keyChanged].  When the call returns
    false the byte [pNewKey] points to is the one that was there before;
    when it returns true it is the committed key. *)
Theorem keyChanged_out_parameter (d : Keypad.KeypadDevice) (p : Keypad.Poll) (mem : Z) :
  let c := Keypad.keyChanged d p mem in
  Keypad.pointee c =
    if Keypad.changed c then Keypad._newKey (Keypad.device c) else mem.
Proof.
  simpl. unfold Keypad.keyChanged.
  destruct (negb _); reflexivity.
Qed.

(** ** Symbol substitution *)

Section Substitution.
Import Display.

Lemma not_reserved_eqb ch c : ~ In ch reserved -> In c reserved -> Ascii.eqb ch c = false.
Proof.
  intros Hn Hc. destruct (Ascii.eqb_spec ch c) as [->|]; [|reflexivity].
  contradiction.
Qed.

(** The HD44780 backends honour the whole table: each reserved character
    goes to its CGRAM slot, which is not its own code. *)
Lemma translateChar_reserved ch :
  In ch reserved -> 0 <= translateChar ch < 8 /\ translateChar ch <> to_byte (charCode ch).
Proof.
  simpl. intros H.
  repeat (destruct H as [<-|H]; [vm_compute; repeat split; discriminate|]).
  contradiction.
Qed.

Lemma translateChar_other ch :
  ~ In ch reserved -> translateChar ch = to_byte (charCode ch).
Proof.
  intros H. unfold translateChar.
  rewrite !(not_reserved_eqb ch) by (exact H || (simpl; tauto)).
  reflexivity.
Qed.

(** The SSD1306 backend draws every character outside the table from
    the text font, under its own code. *)
Lemma SSD1306_printChar_other lcd ch :
  ~ In ch reserved -> SSD1306_printChar lcd ch = SSD1306_literal lcd ch.
Proof.
  intros H. unfold SSD1306_printChar.
  rewrite !(not_reserved_eqb ch) by (exact H || (simpl; tauto)).
  reflexivity.
Qed.

(** It has a glyph of its own for seven of the eight reserved
    characters. *)
Lemma SSD1306_printChar_substituted lcd ch :
  In ch reserved -> ch <> "'"%char ->
  SSD1306_printChar lcd ch <> SSD1306_literal lcd ch.
Proof.
  simpl. intros H Hm.
  repeat (destruct H as [<-|H];
          [first [contradiction Hm; reflexivity
                 | unfold SSD1306_printChar, SSD1306_literal, glyph, glyph1x2; simpl;
                   intros E; injection E; intros; discriminate]|]).
  contradiction.
Qed.

(** C4.  The substitution table is not honoured identically.  For the
    minutes character the HD44780 backends write the dedicated glyph
    [SYMBOL_MINUTES], which differs from the character's own code,
    whereas [SSD1306DisplayDevice::printChar] has no case for it: it
    falls into the final branch and draws the literal code point 39
    from the text font, exactly as for a character outside the table. *)
Theorem SSD1306_minutes_drawn_literally (lcd : Display.U8X8) :
  In "'"%char reserved /\
  translateChar "'" = SYMBOL_MINUTES /\
  translateChar "'" <> to_byte (charCode "'") /\
  SSD1306_printChar lcd "'" = SSD1306_literal lcd "'" /\
  SSD1306_literal lcd "'" = glyph lcd u8x8_font_7x14_1x2_f 39.
Proof.
  repeat split; try reflexivity.
  - simpl. tauto.
  - vm_compute. discriminate.
Qed.

End Substitution.

(** ** The menu *)

Section MenuModel.
Import Display Menu.

Lemma setActive_loop_missing items i id0 :
  (forall item, In item items -> id item <> id0) ->
  setActive_loop items i id0 = None.
Proof.
  revert i. induction items as [|item rest IH]; intros i H; simpl; [reflexivity|].
  destruct (id item =? id0) eqn:E.
  - apply Z.eqb_eq in E. exfalso. apply (H item); [now left | exact E].
  - apply IH. intros it Hin. apply H. now right.
Qed.

Lemma printMenu_frame m line m' :
  printMenu m line = Some m' ->
  _menuItems m' = _menuItems m /\
  _activeMenuIndex m' = _activeMenuIndex m /\
  _longestDisplay m' = _longestDisplay m /\
  _activeRow m' = _activeRow m /\
  _activeCol m' = _activeCol m /\
  length (_lastDisplay m') = length (_lastDisplay m).
Proof.
  unfold printMenu.
  destruct (_lastDisplay m !! Z.to_nat (_activeRow m)); [|discriminate].
  destruct (negb (String.eqb s line) || negb (_activeCol m =? 0));
    intros H; injection H as <-; simpl; repeat split.
  apply length_insert.
Qed.

(** After a call at column 0 the row cache holds the text. *)
Lemma printMenu_caches m line m' :
  printMenu m line = Some m' ->
  _activeCol m = 0 ->
  _lastDisplay m' !! Z.to_nat (_activeRow m') = Some line.
Proof.
  unfold printMenu.
  destruct (_lastDisplay m !! Z.to_nat (_activeRow m)) as [last|] eqn:L; [|discriminate].
  intros H Hcol. rewrite Hcol in H. simpl in H. rewrite orb_false_r in H.
  destruct (String.eqb_spec last line) as [->|Hne]; simpl in H; injection H as <-.
  - exact L.
  - simpl. apply list_lookup_insert_eq. apply lookup_lt_Some in L. exact L.
Qed.

End MenuModel.

(** C8.  [setActive] with an id that no item carries returns the menu
    as it was, so that [getActive()] gives what it gave before; the
    function has no failure result. *)
Theorem setActive_missing_id (m : Menu.FullLcdMenu) (id0 : Z) :
  (forall item, In item (Menu._menuItems m) -> Menu.id item <> id0) ->
  Menu.setActive m id0 = m /\
  Menu.getActive (Menu.setActive m id0) = Menu.getActive m.
Proof.
  intros H. unfold Menu.setActive.
  rewrite (setActive_loop_missing _ 0 id0 H). split; reflexivity.
Qed.

Lemma setActive_missing_id_witness :
  Menu.setActive Examples.abcMenu 9 = Examples.abcMenu /\
  Menu.getActive (Menu.setActive Examples.abcMenu 9) = Menu.getActive Examples.abcMenu.
Proof.
  apply (setActive_missing_id Examples.abcMenu 9).
  intros item Hin. vm_compute in Hin.
  destruct Hin as [<-|[<-|[<-|[]]]]; vm_compute; discriminate.
Defined.

(** C6.  Differential write skip.  When the text equals the cached
    string of the current row and the menu cursor is at column 0,
    [printMenu] returns the menu unchanged: no backend call is added to
    [calls], the screen and the row cache stay as they are.  Hence of
    two consecutive calls with the same text at column 0 the second one
    changes nothing. *)
Theorem printMenu_differential_skip (m : Menu.FullLcdMenu) (line : string) :
  Menu._activeCol m = 0 ->
  (Menu._lastDisplay m !! Z.to_nat (Menu._activeRow m) = Some line ->
   Menu.printMenu m line = Some m) /\
  (forall m1, Menu.printMenu m line = Some m1 ->
     Menu.printMenu m1 line = Some m1).
Proof.
  intros Hcol.
  assert (Hskip : forall m0, Menu._activeCol m0 = 0 ->
            Menu._lastDisplay m0 !! Z.to_nat (Menu._activeRow m0) = Some line ->
            Menu.printMenu m0 line = Some m0).
  { intros m0 Hc HL. unfold Menu.printMenu. rewrite HL, Hc, String.eqb_refl. reflexivity. }
  split.
  - apply Hskip. exact Hcol.
  - intros m1 H1. apply Hskip.
    + destruct (printMenu_frame m line m1 H1) as (_ & _ & _ & _ & Hc & _). congruence.
    + exact (printMenu_caches m line m1 H1 Hcol).
Qed.

Lemma printMenu_differential_skip_witness :
  Menu.printMenu Examples.abcRendered "A  BB >CCC<     " = Some Examples.abcRendered /\
  (forall m1, Menu.printMenu Examples.abcRendered "A  BB >CCC<     " = Some m1 ->
     Menu.printMenu m1 "A  BB >CCC<     " = Some m1).
Proof.
  destruct (printMenu_differential_skip Examples.abcRendered "A  BB >CCC<     " eq_refl)
    as [Hskip Hagain].
  split; [apply Hskip; reflexivity | exact Hagain].
Defined.

Section Rendering.
Import Display Menu.

Lemma string_length_append s1 s2 :
  String.length (s1 ++ s2) = (String.length s1 + String.length s2)%nat.
Proof. induction s1 as [|c s1 IH]; simpl; [reflexivity | now rewrite IH]. Qed.

Lemma sprintf_item_fits isActive item :
  (String.length (display item) <= 9)%nat ->
  is_Some (sprintf_item isActive item).
Proof.
  intros H. unfold sprintf_item. cbn [String.length].
  rewrite string_length_append. cbn [String.length].
  destruct (Z.ltb_spec (Z.of_nat (S (String.length (display item) + 1))) 12);
    [eauto | lia].
Qed.

Lemma buildMenuString_total items :
  Forall (fun item => (String.length (display item) <= 9)%nat) items ->
  forall i active menuString offsetToActive offset,
    is_Some (buildMenuString items i active menuString offsetToActive offset).
Proof.
  induction 1 as [|item rest Hfit _ IH]; intros; simpl; [eauto|].
  destruct (sprintf_item_fits (i =? active) item Hfit) as [scratch ->].
  apply IH.
Qed.

(** [updateDisplay] returns whenever the labels fit the scratch buffer;
    it leaves the items and the selection alone and ends with the menu
    cursor at column 0 of row 1. *)
Lemma updateDisplay_returns m :
  length (_lastDisplay m) = Z.to_nat NUM_ROWS -> labelsFit m ->
  exists m', updateDisplay m = Some m' /\
    _menuItems m' = _menuItems m /\
    _activeMenuIndex m' = _activeMenuIndex m /\
    _longestDisplay m' = _longestDisplay m /\
    _activeRow m' = 1 /\ _activeCol m' = 0 /\
    length (_lastDisplay m') = length (_lastDisplay m).
Proof.
  intros Hlen Hfit. unfold updateDisplay.
  destruct (buildMenuString_total _ Hfit 0 (_activeMenuIndex m) EmptyString 0 0)
    as [[menuString offsetToActive] ->].
  set (m0 := with_cursor (with_display m (Display.setCursor (_display m) 0 0)) 0 0).
  destruct (printMenu m0 (menuRow menuString offsetToActive (_longestDisplay m0)))
    as [m1|] eqn:P.
  - apply printMenu_frame in P as (Hi & Ha & Hl & _ & _ & Hc).
    eexists. split; [reflexivity|]. simpl. repeat split; assumption.
  - exfalso. unfold printMenu in P.
    destruct (_lastDisplay m0 !! Z.to_nat (_activeRow m0)) eqn:L.
    + destruct (negb _ || negb _); discriminate.
    + apply lookup_ge_None in L. subst m0. simpl in L. rewrite Hlen in L.
      vm_compute in L. lia.
Qed.

End Rendering.

(** C7 (amended).  On a menu whose labels fit the scratch buffer
    [updateDisplay] returns, and it is made of three steps in this
    order.  First the cursor is set to column 0 of row 0, on the backend
    and in the menu ([m0]).  Then the rendered row is handed to
    [printMenu] with the cursor there ([m1]): the row is cached for
    row 0, the cache of every other row is left alone, and the cursor
    is still at column 0 of row 0.  Last comes [setCursor(0, 1)]: in the
    menu that [updateDisplay] returns the cursor is at column 0 of
    row 1. *)
Theorem updateDisplay_cursor_after (m : Menu.FullLcdMenu) :
  Menu.wellFormed m -> Menu.labelsFit m ->
  exists menuString offsetToActive m1 m',
    let row := Menu.menuRow menuString offsetToActive (Menu._longestDisplay m) in
    let m0 :=
      Menu.with_cursor
        (Menu.with_display m (Display.setCursor (Menu._display m) 0 0)) 0 0 in
    Menu.buildMenuString (Menu._menuItems m) 0 (Menu._activeMenuIndex m) EmptyString 0 0
      = Some (menuString, offsetToActive) /\
    (Menu._activeRow m0 = 0 /\ Menu._activeCol m0 = 0 /\
     Display.calls (Menu._display m0)
       = Display.OpSetCursor 0 0 :: Display.calls (Menu._display m)) /\
    Menu.printMenu m0 row = Some m1 /\
    (Menu._activeRow m1 = 0 /\ Menu._activeCol m1 = 0 /\
     Menu._lastDisplay m1 !! 0%nat = Some row /\
     forall r, r <> 0%nat -> Menu._lastDisplay m1 !! r = Menu._lastDisplay m !! r) /\
    Menu.updateDisplay m = Some m' /\
    m' = Menu.setCursor m1 0 1 /\
    Menu._activeRow m' = 1 /\ Menu._activeCol m' = 0 /\
    Menu._lastDisplay m' = Menu._lastDisplay m1 /\
    Menu._display m' = Menu._display m1.
Proof.
  intros [Hlen _] Hfit.
  destruct (buildMenuString_total _ Hfit 0 (Menu._activeMenuIndex m) EmptyString 0 0)
    as [[menuString offsetToActive] Hb].
  destruct (updateDisplay_returns m Hlen Hfit) as (m' & Hu & _).
  exists menuString, offsetToActive.
  pose proof Hu as Hret.
  unfold Menu.updateDisplay in Hu. rewrite Hb in Hu.
  cbn [Menu._longestDisplay Menu.with_cursor Menu.with_display] in Hu.
  destruct (Menu.printMenu
              (Menu.with_cursor
                 (Menu.with_display m (Display.setCursor (Menu._display m) 0 0)) 0 0)
              (Menu.menuRow menuString offsetToActive (Menu._longestDisplay m)))
    as [m1|] eqn:P; [|discriminate Hu].
  injection Hu as Hu.
  exists m1, m'. cbv zeta.
  destruct (printMenu_frame _ _ _ P) as (_ & _ & _ & Hr & Hc & _).
  pose proof (printMenu_caches _ _ _ P eq_refl) as Hcache.
  rewrite Hr in Hcache.
  assert (Hother : forall r, r <> 0%nat ->
            Menu._lastDisplay m1 !! r = Menu._lastDisplay m !! r).
  { intros r Hne. revert P. unfold Menu.printMenu.
    cbn [Menu._lastDisplay Menu._activeRow Menu._activeCol Menu.with_cursor
         Menu.with_display].
    change (Z.to_nat 0) with 0%nat.
    destruct (Menu._lastDisplay m !! 0%nat) as [last|]; [|discriminate].
    destruct (negb _ || negb _); intros P; injection P as <-; [|reflexivity].
    cbn [Menu._lastDisplay Menu.with_cursor Menu.with_display Menu.with_lastDisplay].
    apply list_lookup_insert_ne. congruence. }
  split; [exact Hb|].
  split; [repeat split|].
  split; [exact P|].
  split; [split; [exact Hr|]; split; [exact Hc|]; split; [exact Hcache | exact Hother]|].
  split; [exact Hret|].
  subst m'. repeat split.
Qed.

Lemma updateDisplay_cursor_after_witness :
  exists menuString offsetToActive m1 m',
    let row :=
      Menu.menuRow menuString offsetToActive (Menu._longestDisplay Examples.abcMenu) in
    let m0 :=
      Menu.with_cursor
        (Menu.with_display Examples.abcMenu
           (Display.setCursor (Menu._display Examples.abcMenu) 0 0)) 0 0 in
    Menu.buildMenuString (Menu._menuItems Examples.abcMenu) 0
      (Menu._activeMenuIndex Examples.abcMenu) EmptyString 0 0
      = Some (menuString, offsetToActive) /\
    (Menu._activeRow m0 = 0 /\ Menu._activeCol m0 = 0 /\
     Display.calls (Menu._display m0)
       = Display.OpSetCursor 0 0 :: Display.calls (Menu._display Examples.abcMenu)) /\
    Menu.printMenu m0 row = Some m1 /\
    (Menu._activeRow m1 = 0 /\ Menu._activeCol m1 = 0 /\
     Menu._lastDisplay m1 !! 0%nat = Some row /\
     forall r, r <> 0%nat ->
       Menu._lastDisplay m1 !! r = Menu._lastDisplay Examples.abcMenu !! r) /\
    Menu.updateDisplay Examples.abcMenu = Some m' /\
    m' = Menu.setCursor m1 0 1 /\
    Menu._activeRow m' = 1 /\ Menu._activeCol m' = 0 /\
    Menu._lastDisplay m' = Menu._lastDisplay m1 /\
    Menu._display m' = Menu._display m1.
Proof.
  apply (updateDisplay_cursor_after Examples.abcMenu).
  - vm_compute. repeat split; discriminate.
  - unfold Menu.labelsFit. vm_compute. repeat constructor.
Defined.

(** C7 as stated fails: after [updateDisplay] the cursor of the menu
    "A", "BB", ">CCC<" is on row 1, not on row 0. *)
Lemma updateDisplay_cursor_counterexample :
  exists m', Menu.updateDisplay Examples.abcMenu = Some m' /\ Menu._activeRow m' <> 0.
Proof.
  eexists. split; [vm_compute; reflexivity|]. vm_compute. discriminate.
Qed.

(** C2 as stated fails: the row rendered for "A", "BB", ">CCC<" is not
    the active item between blanks; its first character is the "A" of
    the first item. *)
Lemma centering_counterexample :
  exists m' row,
    Menu.updateDisplay Examples.abcMenu = Some m' /\
    Menu._lastDisplay m' !! 0%nat = Some row /\
    ~ Menu.centredBetweenBlanks ">CCC<" row.
Proof.
  eexists. eexists. split; [vm_compute; reflexivity|].
  split; [vm_compute; reflexivity|].
  intros [l [r H]]. destruct l as [|l]; simpl in H; discriminate H.
Qed.

(** C2 (amended).  For the items "A", "BB", "CCC" on the 16-column
    display with "CCC" active, [updateDisplay] caches and shows on row 0
    a row of exactly 16 characters.  The wrapped active item [>CCC<]
    begins at column [margin = (15 - 3) / 2 = 6]; the six columns before
    it show the preceding items (the menu string from offset 1), the
    five columns after it are blank. *)
Theorem centering_abc_row :
  let row := "A  BB >CCC<     "%string in
  let margin := Z.quot (Display.NUM_COLUMNS - 1 - Menu._longestDisplay Examples.abcMenu) 2 in
  exists m',
    Menu.updateDisplay Examples.abcMenu = Some m' /\
    Menu._lastDisplay m' !! 0%nat = Some row /\
    Display.shown (Menu._display m') 0 = Some (list_ascii_of_string row) /\
    String.length row = 16%nat /\
    margin = 6 /\
    substring (Z.to_nat margin) 5 row = ">CCC<"%string /\
    substring 0 (Z.to_nat margin) row = substring 1 6 " A  BB >CCC<"%string /\
    substring (Z.to_nat margin + 5) 5 row = "     "%string.
Proof.
  eexists. split; [vm_compute; reflexivity|].
  repeat split; vm_compute; reflexivity.
Qed.

Section Navigation.
Import Display Menu.

Lemma adjustWrap_next index count :
  adjustWrap index 1 0 (count - 1) = (index + 1) mod count.
Proof.
  unfold adjustWrap.
  replace (index + 1 - 0) with (index + 1) by lia.
  replace (count - 1 + 1 - 0) with count by lia.
  apply Z.add_0_l.
Qed.

(** One call of [setNextActive] on a menu with items. *)
Lemma setNextActive_step m :
  wellFormed m -> labelsFit m -> 0 < _numMenuItems m ->
  exists m', setNextActive m = Some m' /\
    _menuItems m' = _menuItems m /\
    _activeMenuIndex m' = (_activeMenuIndex m + 1) mod _numMenuItems m /\
    wellFormed m'.
Proof.
  intros (Hlen & Hnum & Hidx) Hfit Hpos. unfold setNextActive.
  rewrite adjustWrap_next.
  assert (Hrange : 0 <= (_activeMenuIndex m + 1) mod _numMenuItems m < _numMenuItems m)
    by (apply Z.mod_pos_bound; exact Hpos).
  rewrite to_byte_small by lia.
  set (m0 := with_activeMenuIndex m ((_activeMenuIndex m + 1) mod _numMenuItems m)).
  destruct (updateDisplay_returns m0 Hlen Hfit)
    as (m1 & -> & Hi & Ha & _ & _ & _ & Hc).
  eexists. split; [reflexivity|]. simpl.
  split; [exact Hi|]. split; [exact Ha|].
  unfold wellFormed, _numMenuItems. simpl. rewrite Hi, Ha, Hc. simpl.
  repeat split; try assumption; unfold _numMenuItems in *; lia.
Qed.

(** [n] calls move the selection [n] places round the menu. *)
Lemma setNextActive_times_index n :
  forall m,
    wellFormed m -> labelsFit m ->
    0 <= _activeMenuIndex m < _numMenuItems m ->
    exists m', setNextActive_times n m = Some m' /\
      _menuItems m' = _menuItems m /\
      _activeMenuIndex m' = (_activeMenuIndex m + Z.of_nat n) mod _numMenuItems m.
Proof.
  induction n as [|n IH]; intros m Hwf Hfit Hidx.
  - exists m. split; [reflexivity|]. split; [reflexivity|].
    rewrite Z.add_0_r. symmetry. apply Z.mod_small. exact Hidx.
  - destruct (setNextActive_step m Hwf Hfit) as (m1 & H1 & Hi1 & Ha1 & Hwf1); [lia|].
    assert (Hn : _numMenuItems m1 = _numMenuItems m)
      by (unfold _numMenuItems; now rewrite Hi1).
    destruct (IH m1 Hwf1) as (m' & H' & Hi' & Ha').
    + unfold labelsFit. rewrite Hi1. exact Hfit.
    + rewrite Hn, Ha1. apply Z.mod_pos_bound. lia.
    + exists m'. cbn [setNextActive_times]. rewrite H1.
      split; [exact H'|]. split; [congruence|].
      rewrite Ha', Hn, Ha1, Zplus_mod_idemp_l. f_equal. lia.
Qed.

End Navigation.

(** C5.  Wraparound navigation.  On a menu whose active index selects
    one of its [N] items, a call of [setNextActive] sets the active
    index to [(index + 1) mod N], and [N] calls in succession bring
    [getActive()] back to the id it returned before the first call.
    ([adjustWrap] is taken from the specification.) *)
Theorem setNextActive_wraparound (m : Menu.FullLcdMenu) (a : Z) :
  Menu.wellFormed m -> Menu.labelsFit m ->
  Menu.getActive m = Some a ->
  (exists m1, Menu.setNextActive m = Some m1 /\
     Menu._activeMenuIndex m1
       = (Menu._activeMenuIndex m + 1) mod Menu._numMenuItems m) /\
  (exists m', Menu.setNextActive_times (length (Menu._menuItems m)) m = Some m' /\
     Menu.getActive m' = Some a).
Proof.
  intros Hwf Hfit Hact.
  assert (Hidx : 0 <= Menu._activeMenuIndex m < Menu._numMenuItems m).
  { destruct Hwf as (_ & _ & Hb). unfold Menu.getActive in Hact.
    destruct (Menu._menuItems m !! Z.to_nat (Menu._activeMenuIndex m)) eqn:L;
      [|discriminate].
    apply lookup_lt_Some in L. unfold Menu._numMenuItems. lia. }
  split.
  - destruct (setNextActive_step m Hwf Hfit) as (m1 & H1 & _ & Ha1 & _); [lia|].
    exists m1. split; assumption.
  - destruct (setNextActive_times_index (length (Menu._menuItems m)) m Hwf Hfit Hidx)
      as (m' & H' & Hi' & Ha').
    exists m'. split; [exact H'|].
    unfold Menu.getActive. rewrite Hi', Ha'.
    change (Z.of_nat (length (Menu._menuItems m))) with (Menu._numMenuItems m).
    rewrite <- (Z.mul_1_l (Menu._numMenuItems m)) at 1.
    rewrite Z.mod_add by lia. rewrite Z.mod_small by exact Hidx.
    exact Hact.
Qed.

Lemma setNextActive_wraparound_witness :
  (exists m1, Menu.setNextActive Examples.abcMenu = Some m1 /\
     Menu._activeMenuIndex m1
       = (Menu._activeMenuIndex Examples.abcMenu + 1)
           mod Menu._numMenuItems Examples.abcMenu) /\
  (exists m', Menu.setNextActive_times
                (length (Menu._menuItems Examples.abcMenu)) Examples.abcMenu = Some m' /\
     Menu.getActive m' = Some 3).
Proof.
  apply (setNextActive_wraparound Examples.abcMenu 3).
  - vm_compute. repeat split; discriminate.
  - unfold Menu.labelsFit. vm_compute. repeat constructor.
  - reflexivity.
Defined.

(** ** The row cache and the display *)

Section RowCache.
Import Display Menu.

Lemma columns_nat : Z.to_nat NUM_COLUMNS = 16%nat.
Proof. reflexivity. Qed.

Lemma alter_as_insert {A} (f : A -> A) (l : list A) i x :
  l !! i = Some x -> alter f i l = <[i := f x]> l.
Proof.
  intros H. apply list_eq. intros j. destruct (decide (i = j)) as [<-|Hne].
  - rewrite list_lookup_alter_eq, H.
    rewrite list_lookup_insert_eq by (eapply lookup_lt_Some; exact H). reflexivity.
  - rewrite list_lookup_alter_ne, list_lookup_insert_ne by exact Hne. reflexivity.
Qed.

Lemma printChar_screen d ch cur :
  screen d !! ty d = Some cur ->
  screen (printChar d ch) = <[ty d := <[tx d := ch]> cur]> (screen d).
Proof. intros H. unfold printChar. simpl. now apply alter_as_insert. Qed.

Lemma printString_printList d line :
  printString d line = printList d (list_ascii_of_string line).
Proof. revert d. induction line as [|ch line IH]; intros d; simpl; [reflexivity | apply IH]. Qed.

Lemma printSpaces_printList n d :
  printSpaces n d = printList d (replicate n " "%char).
Proof. revert d. induction n as [|n IH]; intros d; simpl; [reflexivity | apply IH]. Qed.

Lemma printList_app d cs1 cs2 :
  printList d (cs1 ++ cs2) = printList (printList d cs1) cs2.
Proof. revert d. induction cs1 as [|c cs1 IH]; intros d; simpl; [reflexivity | apply IH]. Qed.

(** Characters printed within one row overwrite that row from the
    cursor on and nothing else. *)
Lemma printList_row cs :
  forall d cur,
    screen d !! ty d = Some cur ->
    length cur = 16%nat ->
    (tx d + length cs <= 16)%nat ->
    screen (printList d cs)
      = <[ty d := take (tx d) cur ++ cs ++ drop (tx d + length cs) cur]> (screen d).
Proof.
  induction cs as [|c cs IH]; intros d cur Hrow Hlen Hfit.
  - simpl. rewrite Nat.add_0_r, take_drop. symmetry. now apply list_insert_id.
  - cbn [printList]. cbn [length] in Hfit.
    assert (Hk : (tx d < length cur)%nat) by lia.
    destruct cs as [|c2 cs].
    + cbn [printList]. rewrite (printChar_screen d c cur Hrow).
      f_equal. rewrite insert_take_drop by exact Hk.
      simpl. now rewrite Nat.add_1_r.
    + cbn [length] in Hfit.
      assert (Hrow1 : screen (printChar d c) !! ty d = Some (<[tx d := c]> cur)).
      { rewrite (printChar_screen d c cur Hrow).
        apply list_lookup_insert_eq. eapply lookup_lt_Some. exact Hrow. }
      assert (Htx : tx (printChar d c) = S (tx d)).
      { unfold printChar. simpl. rewrite columns_nat.
        destruct (decide (S (tx d) < 16)%nat); [reflexivity | lia]. }
      assert (Hty : ty (printChar d c) = ty d).
      { unfold printChar. simpl. rewrite columns_nat.
        destruct (decide (S (tx d) < 16)%nat); [reflexivity | lia]. }
      rewrite (IH (printChar d c) (<[tx d := c]> cur)).
      * rewrite Hty, Htx, (printChar_screen d c cur Hrow), list_insert_insert_eq.
        f_equal.
        rewrite (take_S_r _ _ c) by (now apply list_lookup_insert_eq).
        rewrite take_insert_ge by lia.
        rewrite drop_insert_lt by (cbn [length]; lia).
        rewrite <- app_assoc. cbn [length app].
        replace (S (tx d) + S (length cs))%nat with (tx d + S (S (length cs)))%nat by lia.
        reflexivity.
      * rewrite Hty. exact Hrow1.
      * now rewrite length_insert.
      * rewrite Htx. cbn [length]. lia.
Qed.

Lemma list_ascii_length line :
  length (list_ascii_of_string line) = String.length line.
Proof. induction line as [|c line IH]; simpl; [reflexivity | now rewrite IH]. Qed.

Lemma padded_length line :
  (String.length line <= 16)%nat -> length (padded line) = 16%nat.
Proof.
  intros H. unfold padded.
  rewrite length_app, list_ascii_length, length_replicate, columns_nat. lia.
Qed.


(** A blank display agrees with the empty cache of a new menu. *)
Lemma create_coherent maxItems :
  coherent (create maxItems) /\ wellShaped (_display (create maxItems)).
Proof.
  split.
  - intros row line H. destruct row as [|[|row]]; simpl in H.
    + injection H as <-. reflexivity.
    + injection H as <-. reflexivity.
    + discriminate H.
  - unfold wellShaped. simpl. repeat constructor.
Qed.

End RowCache.


(** Coherence of a concrete menu is settled row by row. *)
Ltac coherent_by_rows :=
  let row := fresh "row" in
  let line := fresh "line" in
  let H := fresh "H" in
  intros row line H;
  destruct row as [|[|row]]; vm_compute in H;
  [ injection H as <-; vm_compute; reflexivity
  | injection H as <-; vm_compute; reflexivity
  | discriminate H ].



(** * Further properties of the code *)

(** ** Keypad *)

Section KeypadMore.
Import Keypad KeypadHw.

Lemma debounceKeypad_sameDebounce d1 d2 p :
  sameDebounce d1 d2 -> sameDebounce (debounceKeypad d1 p) (debounceKeypad d2 p).
Proof.
  intros (_ & _ & Ht & Hk & Hn). unfold debounceKeypad. rewrite Ht, Hk.
  destruct (keyCode (raw p) =? _lastKey d2); simpl.
  - destruct (DEBOUNCE_PERIOD <? to_uint32 (to_uint32 (now p) - _lastKeyChange d2));
      repeat split; simpl; assumption.
  - repeat split; simpl; assumption.
Qed.

Lemma keyChanged_sameDebounce d p mem :
  sameDebounce (device (keyChanged d p mem)) (debounceKeypad d p).
Proof.
  unfold keyChanged.
  destruct (negb (_newKey (debounceKeypad d p) =? _lastNewKey (debounceKeypad d p)));
    repeat split.
Qed.

End KeypadMore.

(** X1.  Debounce stability.  While every poll reads a raw key other
    than the poll before it, the committed key stays what it was,
    however much time passes. *)
Theorem bounce_never_commits (d : Keypad.KeypadDevice) (h : list Keypad.Poll) :
  KeypadHw.bouncing d h ->
  Keypad._newKey (Keypad.polledFrom d h) = Keypad._newKey d.
Proof.
  induction h as [|p h IH]; intros Hb; [reflexivity|].
  destruct Hb as [Hne Hb]. cbn [Keypad.polledFrom].
  rewrite debounceKeypad_newKey.
  apply Z.eqb_neq in Hne. rewrite Hne. simpl. exact (IH Hb).
Qed.

Lemma bounce_never_commits_witness :
  Keypad._newKey (Keypad.polledFrom Keypad.init Examples.pollsBounce)
  = Keypad._newKey Keypad.init.
Proof.
  apply (bounce_never_commits Keypad.init Examples.pollsBounce).
  vm_compute. repeat split; discriminate.
Defined.

(** X2.  The debouncer never invents a key: after any polls the
    committed key is the one the device started with or the raw key of
    one of the polls. *)
Theorem committed_key_was_read (d : Keypad.KeypadDevice) (h : list Keypad.Poll) :
  Keypad._newKey (Keypad.polledFrom d h) = Keypad._newKey d \/
  exists p, In p h /\
    Keypad._newKey (Keypad.polledFrom d h) = Keypad.keyCode (Keypad.raw p).
Proof.
  induction h as [|p h IH]; [now left|].
  cbn [Keypad.polledFrom]. rewrite debounceKeypad_newKey.
  destruct (_ && _).
  - right. exists p. split; [now left | reflexivity].
  - destruct IH as [IH|[q [Hq IH]]]; [now left|].
    right. exists q. split; [now right | exact IH].
Qed.

(** X3.  On a newly constructed device the first call of [keyChanged]
    returns true and reports the key 255, whatever is read: the
    constructor leaves [_newKey] (-1) and [_lastNewKey] (-2) different,
    and the first poll cannot commit. *)
Theorem first_keyChanged_reports_255 (p : Keypad.Poll) (mem : Z) :
  Keypad.changed (Keypad.keyChanged Keypad.init p mem) = true /\
  Keypad.pointee (Keypad.keyChanged Keypad.init p mem) = 255.
Proof.
  unfold Keypad.keyChanged.
  rewrite debounceKeypad_lastNewKey, debounceKeypad_newKey.
  destruct (Keypad.keyCode (Keypad.raw p) =? Keypad._lastKey Keypad.init) eqn:E.
  - apply Z.eqb_eq in E. now apply keyCode_not_sentinel in E.
  - split; reflexivity.
Qed.

(** X4.  [keyChanged] does not disturb debouncing: whatever polls
    follow, the committed key is the same as if the call had been one of
    [currentKey]. *)
Theorem keyChanged_keeps_debounce_state (d : Keypad.KeypadDevice) (p : Keypad.Poll)
    (mem : Z) (h : list Keypad.Poll) :
  Keypad._newKey
    (Keypad.polledFrom (Keypad.device (Keypad.keyChanged d p mem)) h)
  = Keypad._newKey (Keypad.polledFrom (fst (Keypad.currentKey d p)) h).
Proof.
  assert (H : KeypadHw.sameDebounce
            (Keypad.polledFrom (Keypad.device (Keypad.keyChanged d p mem)) h)
            (Keypad.polledFrom (fst (Keypad.currentKey d p)) h)).
  { induction h as [|q h IH]; simpl.
    - apply keyChanged_sameDebounce.
    - apply debounceKeypad_sameDebounce. exact IH. }
  destruct H as (_ & _ & _ & _ & H). exact H.
Qed.

(** X5.  The resistor-ladder shield: every key has one band of the
    analog value.  Everything from 920 up reads as NONE (the band from
    920 to 1000 falls through all tests), everything below 50, negative
    values included, as RIGHT. *)
Theorem LcdKeypadShield_bands (a : Z) :
  let k := Keypad.LcdKeypadShield_readKeypadState a in
  (k = Keypad.btnRIGHT <-> a < 50) /\
  (k = Keypad.btnUP <-> 50 <= a < 240) /\
  (k = Keypad.btnDOWN <-> 240 <= a < 400) /\
  (k = Keypad.btnLEFT <-> 400 <= a < 600) /\
  (k = Keypad.btnSELECT <-> 600 <= a < 920) /\
  (k = Keypad.btnNONE <-> 920 <= a).
Proof.
  unfold Keypad.LcdKeypadShield_readKeypadState.
  destruct (Z.ltb_spec 1000 a); [repeat split; intros; first [discriminate | lia]|].
  destruct (Z.ltb_spec a 50); [repeat split; intros; first [discriminate | lia]|].
  destruct (Z.ltb_spec a 240); [repeat split; intros; first [discriminate | lia]|].
  destruct (Z.ltb_spec a 400); [repeat split; intros; first [discriminate | lia]|].
  destruct (Z.ltb_spec a 600); [repeat split; intros; first [discriminate | lia]|].
  destruct (Z.ltb_spec a 920); repeat split; intros; first [discriminate | lia].
Qed.

(** X6.  The joystick: the push button wins over both axes and the
    vertical axis over the horizontal one; a stick inside the dead band
    of 500 counts around mid-scale (2048) reads as NONE. *)
Theorem MiniJoystick_priority (x y : Z) (push : bool) :
  Keypad.MiniJoystick_readKeypadState x y push =
    if push then Keypad.btnSELECT
    else if y <? 1548 then Keypad.btnDOWN
    else if 2548 <? y then Keypad.btnUP
    else if x <? 1548 then Keypad.btnLEFT
    else if 2548 <? x then Keypad.btnRIGHT
    else Keypad.btnNONE.
Proof.
  unfold Keypad.MiniJoystick_readKeypadState.
  change (4096 / 2 + 500) with 2548. change (4096 / 2 - 500) with 1548.
  destruct push; [reflexivity|].
  destruct (y <? 1548); [reflexivity|].
  destruct (2548 <? y); [reflexivity|].
  destruct (x <? 1548); [reflexivity|].
  destruct (2548 <? x); reflexivity.
Qed.

(** X7.  The I2C shield: of the buttons reported as pressed, the one
    that comes last in the order UP, DOWN, LEFT, RIGHT, SELECT gives the
    key, whatever the masks of the buttons are; no button gives NONE. *)
Theorem MCP_readKeypadState_priority
    (BUTTON_UP BUTTON_DOWN BUTTON_LEFT BUTTON_RIGHT BUTTON_SELECT buttons : Z) :
  fst (KeypadHw.MCP_readKeypadState
         BUTTON_UP BUTTON_DOWN BUTTON_LEFT BUTTON_RIGHT BUTTON_SELECT buttons)
  = KeypadHw.MCP_priority
      BUTTON_UP BUTTON_DOWN BUTTON_LEFT BUTTON_RIGHT BUTTON_SELECT buttons
  /\ (buttons = 0 ->
      fst (KeypadHw.MCP_readKeypadState
             BUTTON_UP BUTTON_DOWN BUTTON_LEFT BUTTON_RIGHT BUTTON_SELECT buttons)
      = Keypad.btnNONE).
Proof.
  unfold KeypadHw.MCP_readKeypadState, KeypadHw.MCP_priority. cbn [fst].
  destruct (Z.eqb_spec buttons 0) as [->|Hne]; cbn [negb].
  - rewrite !Z.land_0_l. split; reflexivity.
  - split; [|contradiction].
    destruct (Z.land buttons BUTTON_SELECT =? 0); [|reflexivity].
    destruct (Z.land buttons BUTTON_RIGHT =? 0); [|reflexivity].
    destruct (Z.land buttons BUTTON_LEFT =? 0); [|reflexivity].
    destruct (Z.land buttons BUTTON_DOWN =? 0); reflexivity.
Qed.

(** ** Gyro *)

(** X8.  [GyroMPU6050::startup] finds the device exactly when the
    WHO_AM_I read is one of 0x68, 0x69, 0xE8, 0xE9 (bits 1 to 6 equal to
    0x34).  A failed read (-1) and every other byte leave the gyro
    absent, and then the bus sees the probe only: the power management
    and configuration registers are not written. *)
Theorem gyro_startup_detects (whoAmI : Z) :
  -1 <= whoAmI < 256 ->
  (fst (Gyro.startup whoAmI) = true <->
     whoAmI = 0x68 \/ whoAmI = 0x69 \/ whoAmI = 0xE8 \/ whoAmI = 0xE9) /\
  (fst (Gyro.startup whoAmI) = false ->
     snd (Gyro.startup whoAmI) =
       [ Gyro.begin_;
         Gyro.beginTransmission 0x68; Gyro.write 0x75;
         Gyro.endTransmission true; Gyro.requestFrom 0x68 1 1 ]).
Proof.
  intros Hr. unfold Gyro.startup.
  assert (Hid : to_byte (Z.land (Z.shiftr whoAmI 1) 0x3F) = (whoAmI / 2) mod 64).
  { rewrite Z.shiftr_div_pow2 by lia.
    change 0x3F with (Z.ones 6). rewrite Z.land_ones by lia.
    change (2 ^ 1) with 2. change (2 ^ 6) with 64.
    apply to_byte_small. pose proof (Z.mod_pos_bound (whoAmI / 2) 64). lia. }
  rewrite Hid.
  destruct (Z.eqb_spec ((whoAmI / 2) mod 64) 0x34) as [E|E]; cbn [negb fst snd].
  - split; [|discriminate]. split; [intros _|reflexivity].
    change 0x34 with 52 in E. change 0x68 with 104. change 0x69 with 105.
    change 0xE8 with 232. change 0xE9 with 233.
    Z.div_mod_to_equations. lia.
  - split; [|reflexivity].
    split; [discriminate|]. intros H. exfalso. apply E.
    destruct H as [H|[H|[H|H]]]; rewrite H; reflexivity.
Qed.

Lemma gyro_startup_detects_witness :
  fst (Gyro.startup (-1)) = false /\
  snd (Gyro.startup (-1)) =
       [ Gyro.begin_;
         Gyro.beginTransmission 0x68; Gyro.write 0x75;
         Gyro.endTransmission true; Gyro.requestFrom 0x68 1 1 ].
Proof.
  destruct (gyro_startup_detects (-1)) as [_ H]; [lia|].
  split; [reflexivity | apply H; reflexivity].
Defined.

(** ** Menu model *)

Section MenuMore.
Import Display Menu Layout.

Lemma printChar_shape d ch :
  length (screen (printChar d ch)) = length (screen d) /\
  (wellShaped d -> wellShaped (printChar d ch)).
Proof.
  unfold printChar, wellShaped. simpl. split; [apply length_alter|].
  intros H. rewrite Forall_lookup in *. intros i r Hr.
  destruct (decide (ty d = i)) as [<-|Hne].
  - rewrite list_lookup_alter_eq in Hr.
    destruct (screen d !! ty d) as [r0|] eqn:E; [|discriminate].
    injection Hr as <-. rewrite length_insert. exact (H _ _ E).
  - rewrite list_lookup_alter_ne in Hr by exact Hne. exact (H _ _ Hr).
Qed.

Lemma printList_shape cs :
  forall d,
    length (screen (printList d cs)) = length (screen d) /\
    (wellShaped d -> wellShaped (printList d cs)).
Proof.
  induction cs as [|c cs IH]; intros d; simpl; [tauto|].
  destruct (IH (printChar d c)) as [Hl Hs].
  destruct (printChar_shape d c) as [Hl1 Hs1].
  split; [congruence | auto].
Qed.

Lemma printList_calls cs :
  forall d, calls (printList d cs) = rev (OpPrintChar <$> cs) ++ calls d.
Proof.
  induction cs as [|c cs IH]; intros d; simpl; [reflexivity|].
  rewrite IH. simpl. now rewrite <- app_assoc.
Qed.

(** The display that a writing [printMenu] leaves. *)
Lemma printMenu_display d col row line :
  printSpaces (Z.to_nat (NUM_COLUMNS - Z.of_nat (String.length line)))
    (printString (Display.setCursor d col row) line)
  = printList (Display.setCursor d col row) (padded line).
Proof.
  rewrite printSpaces_printList, printString_printList, <- printList_app.
  unfold padded. repeat f_equal. unfold NUM_COLUMNS. lia.
Qed.

Lemma printMenu_frame_more m line m' :
  printMenu m line = Some m' ->
  _maxItems m' = _maxItems m /\
  length (screen (_display m')) = length (screen (_display m)) /\
  (wellShaped (_display m) -> wellShaped (_display m')).
Proof.
  unfold printMenu.
  destruct (_lastDisplay m !! Z.to_nat (_activeRow m)); [|discriminate].
  destruct (negb (String.eqb s line) || negb (_activeCol m =? 0));
    intros H; injection H as <-; simpl; [|tauto].
  rewrite printMenu_display.
  destruct (printList_shape (padded line)
              (Display.setCursor (_display m) (_activeCol m) (_activeRow m))) as [Hl Hs].
  repeat split; assumption.
Qed.

Lemma updateDisplay_frame m m' :
  updateDisplay m = Some m' ->
  _maxItems m' = _maxItems m /\
  _menuItems m' = _menuItems m /\
  _activeMenuIndex m' = _activeMenuIndex m /\
  _longestDisplay m' = _longestDisplay m /\
  _activeRow m' = 1 /\ _activeCol m' = 0 /\
  length (_lastDisplay m') = length (_lastDisplay m) /\
  length (screen (_display m')) = length (screen (_display m)) /\
  (wellShaped (_display m) -> wellShaped (_display m')).
Proof.
  unfold updateDisplay.
  destruct (buildMenuString _ _ _ _ _ _) as [[menuString offsetToActive]|]; [|discriminate].
  destruct (printMenu _ _) as [m1|] eqn:P; [|discriminate].
  intros H. injection H as <-.
  destruct (printMenu_frame _ _ _ P) as (Hi & Ha & Hl & _ & _ & Hc).
  destruct (printMenu_frame_more _ _ _ P) as (Hm & Hs & Hw).
  simpl in *. repeat split; assumption.
Qed.

Lemma setActive_loop_found items i id0 k :
  setActive_loop items i id0 = Some k ->
  i <= k < i + Z.of_nat (length items) /\
  exists item, items !! Z.to_nat (k - i) = Some item /\ id item = id0 /\
    forall j item', (j < Z.to_nat (k - i))%nat -> items !! j = Some item' -> id item' <> id0.
Proof.
  revert i. induction items as [|item rest IH]; intros i; simpl; [discriminate|].
  destruct (Z.eqb_spec (id item) id0) as [E|E].
  - intros H. injection H as <-. split; [lia|].
    exists item. rewrite Z.sub_diag. simpl. repeat split; [exact E|]. intros j ? Hj. lia.
  - intros H. apply IH in H as (Hr & item0 & Hl & Hid & Hfirst).
    split; [lia|]. exists item0.
    replace (Z.to_nat (k - i)) with (S (Z.to_nat (k - (i + 1)))) by lia.
    simpl. repeat split; [exact Hl | exact Hid |].
    intros [|j] item' Hj Hit; simpl in Hit.
    + injection Hit as <-. exact E.
    + apply (Hfirst j); [lia | exact Hit].
Qed.

Lemma setActive_loop_some items i id0 :
  (exists item, In item items /\ id item = id0) ->
  is_Some (setActive_loop items i id0).
Proof.
  revert i. induction items as [|item rest IH]; intros i [it [Hin Hid]]; simpl.
  - destruct Hin.
  - destruct (id item =? id0) eqn:E; [eauto|].
    apply IH. destruct Hin as [->|Hin]; [|eauto].
    apply Z.eqb_neq in E. contradiction.
Qed.

End MenuMore.

(** X9.  [findById] returns an item of the menu that carries the id,
    and it returns [NULL] exactly when no item carries it. *)
Theorem findById_sound_complete (m : Menu.FullLcdMenu) (id0 : Z) :
  (forall item, Menu.findById m id0 = Some item ->
     In item (Menu._menuItems m) /\ Menu.id item = id0) /\
  (Menu.findById m id0 = None <->
     forall item, In item (Menu._menuItems m) -> Menu.id item <> id0).
Proof.
  unfold Menu.findById. induction (Menu._menuItems m) as [|it rest [IH1 IH2]]; simpl.
  - split; [discriminate|]. split; [intros _ ? []|reflexivity].
  - destruct (Z.eqb_spec (Menu.id it) id0) as [E|E].
    + split.
      * intros item H. injection H as <-. split; [now left | exact E].
      * split; [discriminate|]. intros H. exfalso. apply (H it); [now left | exact E].
    + split.
      * intros item H. destruct (IH1 item H). split; [now right | assumption].
      * rewrite IH2. split.
        -- intros H item [<-|Hin]; [exact E | now apply H].
        -- intros H item Hin. apply H. now right.
Qed.

(** X10.  [setActive] with an id that some item carries selects the
    first such item: [getActive()] then returns the id, and no item
    before the selected one carries it.  Nothing but the active index
    changes. *)
Theorem setActive_selects_first (m : Menu.FullLcdMenu) (id0 : Z) :
  (exists item, In item (Menu._menuItems m) /\ Menu.id item = id0) ->
  Menu.getActive (Menu.setActive m id0) = Some id0 /\
  (forall j item, (j < Z.to_nat (Menu._activeMenuIndex (Menu.setActive m id0)))%nat ->
     Menu._menuItems m !! j = Some item -> Menu.id item <> id0) /\
  Menu.setActive m id0
    = Menu.with_activeMenuIndex m (Menu._activeMenuIndex (Menu.setActive m id0)).
Proof.
  intros Hex. unfold Menu.setActive.
  destruct (setActive_loop_some (Menu._menuItems m) 0 id0 Hex) as [k Hk].
  rewrite Hk.
  apply setActive_loop_found in Hk as (Hr & item & Hl & Hid & Hfirst).
  rewrite Z.sub_0_r in *. unfold Menu.getActive. simpl.
  rewrite Hl. simpl. rewrite Hid. repeat split. exact Hfirst.
Qed.

Lemma setActive_selects_first_witness :
  Menu.getActive (Menu.setActive Examples.abcMenu 2) = Some 2 /\
  (forall j item,
     (j < Z.to_nat (Menu._activeMenuIndex (Menu.setActive Examples.abcMenu 2)))%nat ->
     Menu._menuItems Examples.abcMenu !! j = Some item -> Menu.id item <> 2) /\
  Menu.setActive Examples.abcMenu 2
    = Menu.with_activeMenuIndex Examples.abcMenu
        (Menu._activeMenuIndex (Menu.setActive Examples.abcMenu 2)).
Proof.
  apply (setActive_selects_first Examples.abcMenu 2).
  exists (Menu.mkItem "BB" 2). split; [|reflexivity].
  vm_compute. right. left. reflexivity.
Defined.

Section AddItem.
Import Menu.

Lemma findById_loop_app items item id0 :
  findById_loop (items ++ [item]) id0 =
    match findById_loop items id0 with
    | Some found => Some found
    | None => if id item =? id0 then Some item else None
    end.
Proof.
  induction items as [|it rest IH]; simpl; [reflexivity|].
  destruct (id it =? id0); [reflexivity | exact IH].
Qed.

End AddItem.

(** X11.  [addItem] appends.  The item that was active stays active;
    every id that was found is still found, with the same item, so that
    an item added under an id already in use is never found; an item
    added under a new id is found. *)
Theorem addItem_appends (m m' : Menu.FullLcdMenu) (disp : string) (id0 : Z) :
  Menu.addItem m disp id0 = Some m' ->
  Menu._menuItems m' = Menu._menuItems m ++ [Menu.mkItem disp (to_byte id0)] /\
  (forall a, Menu.getActive m = Some a -> Menu.getActive m' = Some a) /\
  (forall id1 item, Menu.findById m id1 = Some item -> Menu.findById m' id1 = Some item) /\
  (Menu.findById m (to_byte id0) = None ->
   Menu.findById m' (to_byte id0) = Some (Menu.mkItem disp (to_byte id0))).
Proof.
  unfold Menu.addItem.
  destruct (Menu._numMenuItems m <? Menu._maxItems m); [|discriminate].
  intros H. injection H as <-. unfold Menu.getActive, Menu.findById. simpl.
  split; [reflexivity|]. split; [|split].
  - intros a Ha.
    destruct (Menu._menuItems m !! Z.to_nat (Menu._activeMenuIndex m)) as [it|] eqn:L;
      [|discriminate].
    rewrite (lookup_app_l_Some _ _ _ _ L). exact Ha.
  - intros id1 item Hf. rewrite findById_loop_app, Hf. reflexivity.
  - intros Hf. rewrite findById_loop_app, Hf. simpl. now rewrite Z.eqb_refl.
Qed.

Lemma addItem_appends_witness :
  exists m',
    Menu.addItem (Menu.create 5) "A" 1 = Some m' /\
    Menu._menuItems m' = [Menu.mkItem "A" 1] /\
    Menu.findById m' 1 = Some (Menu.mkItem "A" 1).
Proof.
  eexists. split; [reflexivity|].
  destruct (addItem_appends (Menu.create 5) _ "A" 1 eq_refl) as (Hi & _ & _ & Hf).
  split; [exact Hi | apply Hf; reflexivity].
Defined.

Section Invariant.
Import Display Menu Layout.

Lemma sound_create maxItems : sound (create maxItems).
Proof.
  unfold sound, create, _numMenuItems. simpl.
  pose proof (Z.mod_pos_bound maxItems 256). unfold to_byte.
  repeat split; try lia; unfold wellShaped; simpl; repeat constructor.
Qed.

Lemma sound_setCursor_display m d col row :
  sound m ->
  length (screen d) = length (screen (_display m)) ->
  wellShaped d ->
  sound (with_display (with_cursor m col row) d).
Proof.
  intros (H1 & H2 & H3 & H4 & H5 & H6 & H7) Hl Hw.
  unfold sound, _numMenuItems in *. simpl. rewrite Hl. repeat split; tauto.
Qed.

Lemma maxLabel_app items item :
  maxLabel (items ++ [item])
  = Z.max (maxLabel items) (Z.of_nat (String.length (display item))).
Proof.
  induction items as [|it rest IH]; simpl; [lia|]. rewrite IH. lia.
Qed.

Lemma maxLabel_nonneg items : 0 <= maxLabel items.
Proof. induction items as [|it rest IH]; simpl; lia. Qed.

Lemma maxLabel_bound items :
  Forall (fun item => Z.of_nat (String.length (display item)) < 256) items ->
  maxLabel items < 256.
Proof. induction 1; simpl; lia. Qed.

End Invariant.

Lemma built_is_sound (m : Menu.FullLcdMenu) :
  Layout.built m -> Layout.sound m.
Proof.
  induction 1 as [maxItems
                 | m disp id0 m' _ IH Hadd
                 | m id0 _ IH
                 | m col row _ IH
                 | m line m' _ IH Hp
                 | m col row ch _ IH
                 | m m' _ IH Hu].
  - apply sound_create.
  - destruct IH as (H1 & H2 & H3 & H4 & H5 & H6 & H7).
    unfold Menu.addItem in Hadd.
    destruct (Z.ltb_spec (Menu._numMenuItems m) (Menu._maxItems m)); [|discriminate].
    injection Hadd as <-. unfold Layout.sound, Menu._numMenuItems in *. simpl.
    rewrite length_app. simpl.
    pose proof (Z.mod_pos_bound
                  (Z.max (Menu._longestDisplay m) (Z.of_nat (String.length disp))) 256).
    unfold to_byte. repeat split; try lia; try assumption.
  - destruct IH as (H1 & H2 & H3 & H4 & H5 & H6 & H7). unfold Menu.setActive.
    destruct (Menu.setActive_loop (Menu._menuItems m) 0 id0) as [k|] eqn:E.
    + apply setActive_loop_found in E as (Hr & _).
      unfold Layout.sound, Menu._numMenuItems in *. simpl.
      repeat split; try lia; try assumption.
    + unfold Layout.sound. tauto.
  - destruct IH as (H1 & H2 & H3 & H4 & H5 & H6 & H7).
    unfold Layout.sound, Menu._numMenuItems in *. simpl. tauto.
  - destruct IH as (H1 & H2 & H3 & H4 & H5 & H6 & H7).
    destruct (printMenu_frame _ _ _ Hp) as (Hi & Ha & Hl & _ & _ & Hc).
    destruct (printMenu_frame_more _ _ _ Hp) as (Hm & Hs & Hw).
    unfold Layout.sound, Menu._numMenuItems in *.
    rewrite Hi, Ha, Hl, Hc, Hm, Hs. specialize (Hw H3). tauto.
  - destruct IH as (H1 & H2 & H3 & H4 & H5 & H6 & H7).
    unfold Menu.printAt.
    destruct (printChar_shape
                (Display.setCursor (Menu._display m) (to_byte col) (to_byte row)) ch)
      as [Hl Hw].
    unfold Layout.sound, Menu._numMenuItems in *. simpl in *.
    rewrite Hl. specialize (Hw H3). tauto.
  - destruct IH as (H1 & H2 & H3 & H4 & H5 & H6 & H7).
    destruct (updateDisplay_frame _ _ Hu) as (Hm & Hi & Ha & Hl & _ & _ & Hc & Hs & Hw).
    unfold Layout.sound, Menu._numMenuItems in *.
    rewrite Hi, Ha, Hl, Hc, Hm, Hs. specialize (Hw H3). tauto.
Qed.

(** X12.  Whatever sequence of [addItem], [setActive], [setCursor],
    [printMenu], [printAt] and [updateDisplay] calls is made on a new
    menu, the item count never exceeds the capacity and the active index
    selects an item as soon as the menu has one. *)
Theorem built_sound (m : Menu.FullLcdMenu) :
  Layout.built m -> Layout.sound m.
Proof. exact (built_is_sound m). Qed.

Lemma built_sound_witness : Layout.sound (Menu.setActive (Menu.create 5) 7).
Proof.
  apply (built_sound (Menu.setActive (Menu.create 5) 7)).
  apply Layout.built_setActive. apply Layout.built_create.
Defined.

(** X13.  On such a menu [getActive()] reads inside the array exactly
    when the menu has an item; on an empty menu it reads slot 0 of an
    array without items. *)
Theorem getActive_defined (m : Menu.FullLcdMenu) :
  Layout.sound m ->
  (is_Some (Menu.getActive m) <-> Menu._menuItems m <> []).
Proof.
  intros (_ & _ & _ & _ & _ & H6 & H7). unfold Menu.getActive, Menu._numMenuItems in *.
  split.
  - intros [a Ha] E. rewrite E in Ha. rewrite lookup_nil in Ha. discriminate.
  - intros Hne.
    assert (Hlt : (Z.to_nat (Menu._activeMenuIndex m) < length (Menu._menuItems m))%nat).
    { destruct (Menu._menuItems m); [contradiction|]. simpl in *. lia. }
    apply lookup_lt_is_Some in Hlt as [it Hit]. rewrite Hit. simpl. eauto.
Qed.

Lemma getActive_defined_witness :
  is_Some (Menu.getActive Examples.abcMenu) <-> Menu._menuItems Examples.abcMenu <> [].
Proof.
  apply (getActive_defined Examples.abcMenu).
  unfold Layout.sound. vm_compute.
  repeat split; first [discriminate | repeat constructor | (left; reflexivity)].
Defined.

Lemma built_longestDisplay (m : Menu.FullLcdMenu) :
  Layout.built m ->
  Forall (fun item => Z.of_nat (String.length (Menu.display item)) < 256)
    (Menu._menuItems m) ->
  Menu._longestDisplay m = Layout.maxLabel (Menu._menuItems m).
Proof.
  induction 1 as [maxItems
                 | m disp id0 m' _ IH Hadd
                 | m id0 _ IH
                 | m col row _ IH
                 | m line m' _ IH Hp
                 | m col row ch _ IH
                 | m m' _ IH Hu]; intros Hall.
  - reflexivity.
  - unfold Menu.addItem in Hadd.
    destruct (Menu._numMenuItems m <? Menu._maxItems m); [|discriminate].
    injection Hadd as <-. simpl in *.
    apply Forall_app in Hall as [Hall Hnew].
    rewrite Forall_singleton in Hnew. simpl in Hnew.
    rewrite maxLabel_app. simpl. rewrite (IH Hall).
    apply to_byte_small.
    pose proof (maxLabel_nonneg (Menu._menuItems m)).
    pose proof (maxLabel_bound _ Hall). lia.
  - unfold Menu.setActive in *.
    destruct (Menu.setActive_loop (Menu._menuItems m) 0 id0); simpl in *; auto.
  - simpl in *. auto.
  - destruct (printMenu_frame _ _ _ Hp) as (Hi & _ & Hl & _).
    rewrite Hl, Hi in *. auto.
  - simpl in *. auto.
  - destruct (updateDisplay_frame _ _ Hu) as (_ & Hi & _ & Hl & _).
    rewrite Hl, Hi in *. auto.
Qed.

(** X14.  The cached longest label width is the width of the longest
    label, as long as no label has 256 characters or more. *)
Theorem longestDisplay_is_max (m : Menu.FullLcdMenu) :
  Layout.built m ->
  Forall (fun item => Z.of_nat (String.length (Menu.display item)) < 256)
    (Menu._menuItems m) ->
  Menu._longestDisplay m = Layout.maxLabel (Menu._menuItems m).
Proof. exact (built_longestDisplay m). Qed.

Lemma longestDisplay_is_max_witness :
  exists m',
    Menu.addItem (Menu.create 5) "CCC" 3 = Some m' /\
    Menu._longestDisplay m' = Layout.maxLabel (Menu._menuItems m').
Proof.
  eexists. split; [reflexivity|].
  apply longestDisplay_is_max.
  - apply (Layout.built_addItem (Menu.create 5) "CCC" 3);
      [apply Layout.built_create | reflexivity].
  - vm_compute. repeat constructor.
Defined.

(** ** The rendered row *)

Section Window.
Import Display Menu Layout.

Lemma get_lookup s n : String.get n s = list_ascii_of_string s !! n.
Proof.
  revert n. induction s as [|c s IH]; intros [|n]; simpl; try reflexivity. apply IH.
Qed.

Lemma padFront_runs n :
  forall bufMenu o,
    n = Z.to_nat (- o) ->
    padFront n bufMenu o = (bufMenu ++ replicate n " "%char, Z.max o 0).
Proof.
  induction n as [|n IH]; intros bufMenu o Hn; simpl.
  - rewrite app_nil_r. f_equal. lia.
  - destruct (Z.ltb_spec o 0); [|lia].
    rewrite IH by lia. rewrite <- app_assoc. simpl. f_equal. lia.
Qed.

Lemma copyMenu_runs menuString fuel :
  forall bufMenu o,
    0 <= o ->
    (15 <= fuel + length bufMenu)%nat ->
    fst (copyMenu fuel 15 menuString bufMenu o)
    = bufMenu ++ take (15 - length bufMenu)
                   (drop (Z.to_nat o) (list_ascii_of_string menuString)).
Proof.
  induction fuel as [|fuel IH]; intros bufMenu o Ho Hf; simpl.
  - replace (15 - length bufMenu)%nat with 0%nat by lia. simpl. now rewrite app_nil_r.
  - destruct (Z.ltb_spec (Z.of_nat (length bufMenu)) 15) as [Hb|Hb]; simpl.
    + destruct (Z.ltb_spec o (Z.of_nat (String.length menuString))) as [Hm|Hm].
      * rewrite get_lookup.
        destruct (list_ascii_of_string menuString !! Z.to_nat o) as [ch|] eqn:L.
        -- rewrite IH by (rewrite ?length_app; simpl; lia).
           rewrite (drop_S _ _ _ L), length_app. simpl.
           replace (15 - length bufMenu)%nat with (S (15 - (length bufMenu + 1)))%nat by lia.
           simpl. rewrite <- app_assoc. simpl.
           replace (Z.to_nat (o + 1)) with (S (Z.to_nat o)) by lia. reflexivity.
        -- apply lookup_ge_None in L. rewrite list_ascii_length in L. lia.
      * simpl. rewrite drop_ge by (rewrite list_ascii_length; lia).
        rewrite take_nil. now rewrite app_nil_r.
    + replace (15 - length bufMenu)%nat with 0%nat by lia. simpl. now rewrite app_nil_r.
Qed.

Lemma padEnd_runs fuel :
  forall bufMenu,
    (16 <= fuel + length bufMenu)%nat ->
    padEnd fuel bufMenu = bufMenu ++ replicate (16 - length bufMenu) " "%char.
Proof.
  induction fuel as [|fuel IH]; intros bufMenu Hf; simpl.
  - replace (16 - length bufMenu)%nat with 0%nat by lia. simpl. now rewrite app_nil_r.
  - destruct (Z.ltb_spec (Z.of_nat (length bufMenu)) NUM_COLUMNS) as [Hb|Hb];
      unfold NUM_COLUMNS in Hb.
    + rewrite IH by (rewrite length_app; simpl; lia).
      rewrite length_app. simpl.
      replace (16 - length bufMenu)%nat with (S (16 - (length bufMenu + 1)))%nat by lia.
      simpl. now rewrite <- app_assoc.
    + replace (16 - length bufMenu)%nat with 0%nat by lia. simpl. now rewrite app_nil_r.
Qed.

(** The three loops of [updateDisplay] in closed form. *)
Lemma menuRow_closed menuString offsetToActive longestDisplay :
  let o := offsetToActive - Z.quot (NUM_COLUMNS - 1 - longestDisplay) 2 in
  let n1 := Z.to_nat (- o) in
  let shownText :=
    take (15 - n1) (drop (Z.to_nat o) (list_ascii_of_string menuString)) in
  list_ascii_of_string (menuRow menuString offsetToActive longestDisplay)
  = replicate n1 " "%char ++ shownText
    ++ replicate (16 - (n1 + length shownText)) " "%char.
Proof.
  intros o n1 shownText. unfold menuRow. cbv zeta. fold o. fold n1.
  rewrite (padFront_runs n1 [] o eq_refl). simpl app.
  change (NUM_COLUMNS - 1) with 15. change (Z.to_nat 15) with 15%nat.
  pose proof (copyMenu_runs menuString 15 (replicate n1 " "%char) (Z.max o 0)) as Hc.
  destruct (copyMenu 15 15 menuString (replicate n1 " "%char) (Z.max o 0)) as [buf o2].
  simpl in Hc. rewrite Hc by lia. clear Hc.
  rewrite list_ascii_of_string_of_list_ascii.
  change (Z.to_nat NUM_COLUMNS) with 16%nat.
  rewrite padEnd_runs by lia.
  rewrite length_replicate.
  replace (Z.to_nat (Z.max o 0)) with (Z.to_nat o) by lia.
  fold shownText. rewrite <- app_assoc, length_app, length_replicate. reflexivity.
Qed.

Lemma margin_bound longestDisplay :
  0 <= longestDisplay -> Z.quot (NUM_COLUMNS - 1 - longestDisplay) 2 <= 7.
Proof.
  intros H. change (NUM_COLUMNS - 1) with 15.
  destruct (Z.le_gt_cases longestDisplay 15).
  - rewrite Z.quot_div_nonneg by lia.
    assert ((15 - longestDisplay) / 2 < 8) by (apply Z.div_lt_upper_bound; lia).
    lia.
  - pose proof (Z.quot_opp_l (longestDisplay - 15) 2 ltac:(lia)) as Hq.
    replace (- (longestDisplay - 15)) with (15 - longestDisplay) in Hq by lia.
    rewrite Hq. pose proof (Z.quot_pos (longestDisplay - 15) 2). lia.
Qed.

Lemma menuRow_length menuString offsetToActive longestDisplay :
  0 <= offsetToActive -> 0 <= longestDisplay ->
  String.length (menuRow menuString offsetToActive longestDisplay) = 16%nat.
Proof.
  intros Ho Hl. rewrite <- list_ascii_length, menuRow_closed.
  pose proof (margin_bound longestDisplay Hl).
  rewrite !length_app, !length_replicate, length_take. lia.
Qed.

Lemma menuRow_window menuString offsetToActive longestDisplay c :
  0 <= offsetToActive -> 0 <= longestDisplay -> (c < 16)%nat ->
  list_ascii_of_string (menuRow menuString offsetToActive longestDisplay) !! c
  = Some (windowChar menuString offsetToActive longestDisplay c).
Proof.
  intros Ho Hl Hc. rewrite menuRow_closed. unfold windowChar.
  pose proof (margin_bound longestDisplay Hl) as Hm.
  change (NUM_COLUMNS - 1) with 15 in *.
  set (margin := Z.quot (15 - longestDisplay) 2) in *.
  set (o := offsetToActive - margin).
  set (n1 := Z.to_nat (- o)).
  set (msl := list_ascii_of_string menuString).
  set (T := take (15 - n1) (drop (Z.to_nat o) msl)).
  assert (HT : length T = Nat.min (15 - n1) (length msl - Z.to_nat o))
    by (unfold T; now rewrite length_take, length_drop).
  rewrite get_lookup. fold msl.
  destruct (decide (c < n1)%nat) as [Hlt|Hge].
  - rewrite lookup_app_l by (rewrite length_replicate; exact Hlt).
    rewrite lookup_replicate_2 by exact Hlt.
    destruct (Z.leb_spec 0 (o + Z.of_nat c)); [lia|]. now rewrite andb_false_r.
  - rewrite lookup_app_r by (rewrite length_replicate; lia).
    rewrite length_replicate.
    destruct (decide (c - n1 < length T)%nat) as [HinT|Hout].
    + rewrite lookup_app_l by exact HinT.
      unfold T. rewrite lookup_take_lt by lia. rewrite lookup_drop.
      destruct (Z.ltb_spec (Z.of_nat c) 15); [|lia].
      destruct (Z.leb_spec 0 (o + Z.of_nat c)); [|lia]. simpl.
      replace (Z.to_nat (o + Z.of_nat c)) with (Z.to_nat o + (c - n1))%nat by lia.
      destruct (msl !! (Z.to_nat o + (c - n1))%nat) eqn:L; [reflexivity|].
      apply lookup_ge_None in L. lia.
    + rewrite lookup_app_r by lia.
      rewrite lookup_replicate_2 by lia.
      destruct (Z.ltb_spec (Z.of_nat c) 15); [|reflexivity].
      destruct (Z.leb_spec 0 (o + Z.of_nat c)); [|reflexivity]. simpl.
      rewrite (lookup_ge_None_2 msl) by lia. reflexivity.
Qed.

End Window.

(** X15.  The row that [updateDisplay] composes always has exactly
    [NUM_COLUMNS] = 16 characters and is the window on the menu string
    that starts [margin] columns before the active item: column [c]
    shows the character at offset [offsetToActive - margin + c] of the
    menu string, a blank where that offset lies before or after the
    string, and a blank in the last column. *)
Theorem menuRow_is_window (menuString : string) (offsetToActive longestDisplay : Z) :
  0 <= offsetToActive -> 0 <= longestDisplay ->
  String.length (Menu.menuRow menuString offsetToActive longestDisplay) = 16%nat /\
  forall c : nat, (c < 16)%nat ->
    list_ascii_of_string (Menu.menuRow menuString offsetToActive longestDisplay) !! c
    = Some (Layout.windowChar menuString offsetToActive longestDisplay c).
Proof.
  intros Ho Hl. split.
  - now apply menuRow_length.
  - intros c Hc. now apply menuRow_window.
Qed.

Lemma menuRow_is_window_witness :
  String.length (Menu.menuRow " A  BB >CCC<" 7 3) = 16%nat /\
  forall c : nat, (c < 16)%nat ->
    list_ascii_of_string (Menu.menuRow " A  BB >CCC<" 7 3) !! c
    = Some (Layout.windowChar " A  BB >CCC<" 7 3 c).
Proof. apply (menuRow_is_window " A  BB >CCC<" 7 3); lia. Defined.

Section MenuString.
Import Display Menu Layout.

Lemma string_app_nil_r s : (s ++ "")%string = s.
Proof. induction s as [|c s IH]; simpl; [reflexivity | now rewrite IH]. Qed.

Lemma string_app_assoc s1 s2 s3 : ((s1 ++ s2) ++ s3 = s1 ++ (s2 ++ s3))%string.
Proof. induction s1 as [|c s1 IH]; simpl; [reflexivity | now rewrite IH]. Qed.

Lemma list_ascii_app s1 s2 :
  list_ascii_of_string (s1 ++ s2) = list_ascii_of_string s1 ++ list_ascii_of_string s2.
Proof. induction s1 as [|c s1 IH]; simpl; [reflexivity | now rewrite IH]. Qed.

Lemma wrapItem_length b item :
  Z.of_nat (String.length (wrapItem b item)) = Z.of_nat (String.length (display item)) + 2.
Proof.
  unfold wrapItem. cbn [String.length]. rewrite string_length_append. simpl. lia.
Qed.

Lemma sprintf_item_wrapItem b item :
  (String.length (display item) <= 9)%nat ->
  sprintf_item b item = Some (wrapItem b item).
Proof.
  intros H. pose proof (wrapItem_length b item) as Hl.
  unfold sprintf_item. fold (wrapItem b item).
  destruct (Z.ltb_spec (Z.of_nat (String.length (wrapItem b item))) 12); [reflexivity | lia].
Qed.

Lemma textLength_nonneg items : 0 <= textLength items.
Proof. induction items as [|it rest IH]; simpl; lia. Qed.

Lemma menuText_length items i active :
  Z.of_nat (String.length (menuText items i active)) = textLength items.
Proof.
  revert i. induction items as [|it rest IH]; intros i;
    cbn [menuText textLength]; [reflexivity|].
  rewrite string_length_append, Nat2Z.inj_add, wrapItem_length, IH. lia.
Qed.

(** The first loop of [updateDisplay]: the menu string is the items
    between their markers, and the offset of the active item is the
    length of what precedes it, reduced to a byte. *)
Lemma buildMenuString_runs active items :
  Forall (fun item => (String.length (display item) <= 9)%nat) items ->
  forall i menuString offsetToActive offset,
    0 <= offset < 256 ->
    buildMenuString items i active menuString offsetToActive offset
    = Some ((menuString ++ menuText items i active)%string,
            if (i <=? active) && (active <? i + Z.of_nat (length items))
            then to_byte (offset + textLength (take (Z.to_nat (active - i)) items))
            else offsetToActive).
Proof.
  induction 1 as [|item rest Hfit _ IH]; intros i ms ota off Hoff;
    cbn [buildMenuString menuText length].
  - rewrite string_app_nil_r. f_equal. f_equal.
    destruct (Z.leb_spec i active); destruct (Z.ltb_spec active (i + Z.of_nat 0));
      simpl; first [reflexivity | lia].
  - rewrite (sprintf_item_wrapItem _ _ Hfit), wrapItem_length.
    rewrite IH by (apply Z.mod_pos_bound; lia).
    rewrite string_app_assoc. f_equal. f_equal.
    destruct (Z.leb_spec (i + 1) active) as [H1|H1];
      destruct (Z.ltb_spec active (i + 1 + Z.of_nat (length rest))) as [H2|H2];
      destruct (Z.leb_spec i active) as [H3|H3];
      destruct (Z.ltb_spec active (i + Z.of_nat (S (length rest)))) as [H4|H4];
      destruct (Z.eqb_spec i active) as [H5|H5];
      cbn [andb]; try lia; try reflexivity.
    + replace (Z.to_nat (active - i)) with (S (Z.to_nat (active - (i + 1)))) by lia.
      cbn [take textLength]. unfold to_byte.
      rewrite Zplus_mod_idemp_l. f_equal. lia.
    + replace (Z.to_nat (active - i)) with 0%nat by lia.
      cbn [take textLength]. rewrite Z.add_0_r. symmetry. now apply to_byte_small.
Qed.

Lemma menuText_lookup items :
  forall i active k item j,
    items !! k = Some item ->
    active = i + Z.of_nat k ->
    (j < String.length (wrapItem true item))%nat ->
    list_ascii_of_string (menuText items i active)
      !! (Z.to_nat (textLength (take k items)) + j)%nat
    = list_ascii_of_string (wrapItem true item) !! j.
Proof.
  induction items as [|it rest IH]; intros i active k item j Hk Ha Hj; [discriminate|].
  cbn [menuText]. rewrite list_ascii_app.
  destruct k as [|k]; simpl in Hk.
  - injection Hk as ->. simpl take. simpl textLength. simpl Z.to_nat. simpl Nat.add.
    replace (i =? active) with true by (symmetry; apply Z.eqb_eq; lia).
    apply lookup_app_l. rewrite list_ascii_length. exact Hj.
  - simpl take. simpl textLength.
    pose proof (textLength_nonneg (take k rest)).
    rewrite lookup_app_r
      by (rewrite list_ascii_length;
          pose proof (wrapItem_length (i =? active) it); lia).
    rewrite list_ascii_length.
    rewrite <- (IH (i + 1) active k item j Hk ltac:(lia) Hj).
    f_equal. pose proof (wrapItem_length (i =? active) it). lia.
Qed.

Lemma maxLabel_ge items k item :
  items !! k = Some item ->
  Z.of_nat (String.length (display item)) <= maxLabel items.
Proof.
  revert k. induction items as [|it rest IH]; intros [|k] Hk; simpl in *;
    try discriminate.
  - injection Hk as ->. lia.
  - specialize (IH k Hk). lia.
Qed.

Lemma maxLabel_fit items :
  Forall (fun item => (String.length (display item) <= 9)%nat) items ->
  maxLabel items <= 9.
Proof. induction 1; simpl; lia. Qed.

Lemma textLength_take items k : textLength (take k items) <= textLength items.
Proof.
  revert k. induction items as [|it rest IH]; intros [|k]; simpl; try lia.
  - pose proof (textLength_nonneg rest). lia.
  - specialize (IH k). lia.
Qed.

(** What [updateDisplay] caches for row 0. *)
Lemma updateDisplay_row m m' menuString offsetToActive :
  buildMenuString (_menuItems m) 0 (_activeMenuIndex m) EmptyString 0 0
    = Some (menuString, offsetToActive) ->
  updateDisplay m = Some m' ->
  _lastDisplay m' !! 0%nat
    = Some (menuRow menuString offsetToActive (_longestDisplay m)).
Proof.
  intros Hb. unfold updateDisplay. rewrite Hb.
  destruct (printMenu _ _) as [m1|] eqn:P; [|discriminate].
  intros H. injection H as <-. simpl.
  pose proof (printMenu_caches _ _ _ P eq_refl) as Hc.
  destruct (printMenu_frame _ _ _ P) as (_ & _ & _ & Hr & _).
  rewrite Hr in Hc. exact Hc.
Qed.

End MenuString.

(** X16.  The first loop of [updateDisplay] on a menu whose labels fit
    the scratch buffer: the menu string is the sequence of the items
    between their markers, and the offset of the active item is the
    length of the text before it, kept in a byte (so reduced modulo
    256); with an active index that selects no item the offset is 0. *)
Theorem buildMenuString_spec (m : Menu.FullLcdMenu) :
  Menu.labelsFit m ->
  Menu.buildMenuString (Menu._menuItems m) 0 (Menu._activeMenuIndex m) EmptyString 0 0
  = Some (Layout.menuText (Menu._menuItems m) 0 (Menu._activeMenuIndex m),
          if (0 <=? Menu._activeMenuIndex m)
             && (Menu._activeMenuIndex m <? Menu._numMenuItems m)
          then to_byte (Layout.textLength
                          (take (Z.to_nat (Menu._activeMenuIndex m)) (Menu._menuItems m)))
          else 0).
Proof.
  intros Hfit.
  rewrite (buildMenuString_runs _ _ Hfit 0 EmptyString 0 0) by lia.
  rewrite Z.sub_0_r, !Z.add_0_l. reflexivity.
Qed.

Lemma buildMenuString_spec_witness :
  Menu.buildMenuString (Menu._menuItems Examples.abcMenu) 0
    (Menu._activeMenuIndex Examples.abcMenu) EmptyString 0 0
  = Some (" A  BB >CCC<"%string, 7).
Proof.
  rewrite (buildMenuString_spec Examples.abcMenu).
  - reflexivity.
  - unfold Menu.labelsFit. vm_compute. repeat constructor.
Defined.

(** X17.  Centering.  On a menu built by the operations above, with
    labels that fit the scratch buffer and less than 256 characters of
    menu text, [updateDisplay] returns and the row it caches for row 0
    shows the whole active item between its markers [>] and [<],
    beginning at column [margin = (15 - longest label) / 2]. *)
Theorem active_item_shown_at_margin (m : Menu.FullLcdMenu) (item : Menu.MenuItem) :
  Layout.built m ->
  Menu.labelsFit m ->
  Layout.textLength (Menu._menuItems m) < 256 ->
  Menu._menuItems m !! Z.to_nat (Menu._activeMenuIndex m) = Some item ->
  exists m' row,
    Menu.updateDisplay m = Some m' /\
    Menu._lastDisplay m' !! 0%nat = Some row /\
    let margin := Z.to_nat (Z.quot (Display.NUM_COLUMNS - 1 - Menu._longestDisplay m) 2) in
    take (String.length (Layout.wrapItem true item))
         (drop margin (list_ascii_of_string row))
    = list_ascii_of_string (Layout.wrapItem true item).
Proof.
  intros Hb Hfit Htl Hitem.
  pose proof (built_is_sound m Hb) as (Hc & _ & _ & _ & Hlong & Hidx & _).
  assert (Hall : Forall (fun it => Z.of_nat (String.length (Menu.display it)) < 256)
                   (Menu._menuItems m)).
  { unfold Menu.labelsFit in Hfit. eapply Forall_impl; [exact Hfit|].
    simpl. intros; lia. }
  pose proof (built_longestDisplay m Hb Hall) as HL.
  pose proof (maxLabel_ge _ _ _ Hitem) as Hge.
  pose proof (maxLabel_fit _ Hfit) as Hle9.
  pose proof (lookup_lt_Some _ _ _ Hitem) as Hlt.
  destruct (updateDisplay_returns m Hc Hfit) as (m' & Hu & _).
  pose proof (buildMenuString_runs (Menu._activeMenuIndex m) _ Hfit 0 EmptyString 0 0
                ltac:(lia)) as Hbuild.
  rewrite Z.sub_0_r, !Z.add_0_l in Hbuild. simpl String.append in Hbuild.
  destruct (Z.leb_spec 0 (Menu._activeMenuIndex m)); [|lia].
  destruct (Z.ltb_spec (Menu._activeMenuIndex m)
              (Z.of_nat (length (Menu._menuItems m)))); [|lia].
  simpl andb in Hbuild. cbv iota in Hbuild.
  set (k := Z.to_nat (Menu._activeMenuIndex m)) in *.
  pose proof (textLength_take (Menu._menuItems m) k) as Htk.
  pose proof (textLength_nonneg (take k (Menu._menuItems m))) as Htk0.
  rewrite to_byte_small in Hbuild by lia.
  exists m', (Menu.menuRow (Layout.menuText (Menu._menuItems m) 0 (Menu._activeMenuIndex m))
                (Layout.textLength (take k (Menu._menuItems m))) (Menu._longestDisplay m)).
  split; [exact Hu|]. split; [exact (updateDisplay_row _ _ _ _ Hbuild Hu)|].
  cbv zeta. change (Display.NUM_COLUMNS - 1) with 15.
  rewrite HL in *.
  set (L := Layout.maxLabel (Menu._menuItems m)) in *.
  assert (Hq : Z.quot (15 - L) 2 = (15 - L) / 2) by (apply Z.quot_div_nonneg; lia).
  rewrite Hq.
  assert (Hm0 : 0 <= (15 - L) / 2) by (apply Z.div_pos; lia).
  assert (Hfitrow :
    (15 - L) / 2 + Z.of_nat (String.length (Layout.wrapItem true item)) <= 15).
  { rewrite wrapItem_length.
    assert ((15 - L) / 2 <= (15 - Z.of_nat (String.length (Menu.display item))) / 2)
      by (apply Z.div_le_mono; lia).
    assert (2 * ((15 - Z.of_nat (String.length (Menu.display item))) / 2)
            <= 15 - Z.of_nat (String.length (Menu.display item)))
      by (apply Z.mul_div_le; lia).
    lia. }
  apply list_eq. intros j.
  destruct (decide (j < String.length (Layout.wrapItem true item))%nat) as [Hj|Hj].
  - rewrite lookup_take_lt by exact Hj. rewrite lookup_drop.
    rewrite menuRow_window by lia.
    unfold Layout.windowChar. change (Display.NUM_COLUMNS - 1) with 15. rewrite Hq.
    destruct (Z.ltb_spec (Z.of_nat (Z.to_nat ((15 - L) / 2) + j)) 15); [|lia].
    destruct (Z.leb_spec 0 (Layout.textLength (take k (Menu._menuItems m))
                            - (15 - L) / 2 + Z.of_nat (Z.to_nat ((15 - L) / 2) + j)));
      [|lia].
    cbn [andb]. rewrite get_lookup.
    replace (Z.to_nat (Layout.textLength (take k (Menu._menuItems m))
                       - (15 - L) / 2 + Z.of_nat (Z.to_nat ((15 - L) / 2) + j)))
      with (Z.to_nat (Layout.textLength (take k (Menu._menuItems m))) + j)%nat by lia.
    rewrite (menuText_lookup _ 0 (Menu._activeMenuIndex m) k item j Hitem ltac:(lia) Hj).
    destruct (list_ascii_of_string (Layout.wrapItem true item) !! j) eqn:E; [reflexivity|].
    apply lookup_ge_None in E. rewrite list_ascii_length in E. lia.
  - rewrite lookup_take_ge by lia. symmetry. apply lookup_ge_None.
    rewrite list_ascii_length. lia.
Qed.

Lemma abcMenu_built : Layout.built Examples.abcMenu.
Proof.
  apply Layout.built_setActive.
  apply (Layout.built_addItem
           (Menu.with_menuItems (Menu.create 5)
              [Menu.mkItem "A" 1; Menu.mkItem "BB" 2] 2) "CCC" 3);
    [|reflexivity].
  apply (Layout.built_addItem
           (Menu.with_menuItems (Menu.create 5) [Menu.mkItem "A" 1] 1) "BB" 2);
    [|reflexivity].
  apply (Layout.built_addItem (Menu.create 5) "A" 1); [|reflexivity].
  apply Layout.built_create.
Qed.

Lemma active_item_shown_at_margin_witness :
  exists m' row,
    Menu.updateDisplay Examples.abcMenu = Some m' /\
    Menu._lastDisplay m' !! 0%nat = Some row /\
    take (String.length (Layout.wrapItem true (Menu.mkItem "CCC" 3)))
         (drop (Z.to_nat
                  (Z.quot (Display.NUM_COLUMNS - 1 - Menu._longestDisplay Examples.abcMenu) 2))
               (list_ascii_of_string row))
    = list_ascii_of_string (Layout.wrapItem true (Menu.mkItem "CCC" 3)).
Proof.
  apply (active_item_shown_at_margin Examples.abcMenu (Menu.mkItem "CCC" 3)).
  - exact abcMenu_built.
  - unfold Menu.labelsFit. vm_compute. repeat constructor.
  - vm_compute. reflexivity.
  - reflexivity.
Defined.

(** ** What reaches the display *)

Section Writes.
Import Display Menu Layout.

(** The screen after a [printMenu] that writes a text of at most 16
    characters from column 0. *)
Lemma printMenu_writes_row d row line cur :
  screen d !! Z.to_nat row = Some cur ->
  length cur = 16%nat ->
  (String.length line <= 16)%nat ->
  screen (printList (Display.setCursor d 0 row) (padded line))
  = <[Z.to_nat row := padded line]> (screen d).
Proof.
  intros Hrow Hcur Hlen.
  rewrite (printList_row _ _ cur); simpl.
  - rewrite padded_length by exact Hlen. rewrite drop_ge by lia. now rewrite app_nil_r.
  - exact Hrow.
  - exact Hcur.
  - rewrite padded_length by exact Hlen. lia.
Qed.

Lemma printMenu_coherent_step m line m' :
  wellShaped (_display m) -> coherent m -> _activeCol m = 0 ->
  (String.length line <= 16)%nat ->
  printMenu m line = Some m' ->
  coherent m'.
Proof.
  intros Hshape Hcoh Hcol Hlen. unfold printMenu.
  destruct (_lastDisplay m !! Z.to_nat (_activeRow m)) as [last|] eqn:L; [|discriminate].
  destruct (negb (String.eqb last line) || negb (_activeCol m =? 0));
    intros H; injection H as <-; [|assumption].
  pose proof (Hcoh _ _ L) as Hrow. unfold shown in Hrow.
  assert (Hcur : length (padded last) = 16%nat).
  { unfold wellShaped in Hshape. rewrite Forall_lookup in Hshape. exact (Hshape _ _ Hrow). }
  intros row l Hl. unfold shown. simpl in *.
  rewrite printMenu_display, Hcol, (printMenu_writes_row _ _ _ _ Hrow Hcur Hlen).
  destruct (decide (Z.to_nat (_activeRow m) = row)) as [<-|Hne].
  - rewrite list_lookup_insert_eq in Hl by (eapply lookup_lt_Some; exact L).
    injection Hl as <-. apply list_lookup_insert_eq. eapply lookup_lt_Some. exact Hrow.
  - rewrite list_lookup_insert_ne in Hl by exact Hne.
    rewrite list_lookup_insert_ne by exact Hne. exact (Hcoh _ _ Hl).
Qed.

Lemma buildMenuString_offset m menuString offsetToActive :
  labelsFit m ->
  buildMenuString (_menuItems m) 0 (_activeMenuIndex m) EmptyString 0 0
    = Some (menuString, offsetToActive) ->
  0 <= offsetToActive.
Proof.
  intros Hfit.
  rewrite (buildMenuString_runs _ _ Hfit 0 EmptyString 0 0) by lia.
  intros H. injection H as _ <-.
  destruct (_ && _); [|lia]. apply Z.mod_pos_bound. lia.
Qed.

Lemma printMenu_cache_other m line m' r :
  printMenu m line = Some m' ->
  r <> Z.to_nat (_activeRow m) ->
  _lastDisplay m' !! r = _lastDisplay m !! r.
Proof.
  unfold printMenu.
  destruct (_lastDisplay m !! Z.to_nat (_activeRow m)); [|discriminate].
  destruct (negb (String.eqb s line) || negb (_activeCol m =? 0));
    intros H Hr; injection H as <-; simpl; [|reflexivity].
  apply list_lookup_insert_ne. congruence.
Qed.

Lemma updateDisplay_cache_other m m' r :
  updateDisplay m = Some m' -> r <> 0%nat ->
  _lastDisplay m' !! r = _lastDisplay m !! r.
Proof.
  unfold updateDisplay.
  destruct (buildMenuString _ _ _ _ _ _) as [[menuString offsetToActive]|]; [|discriminate].
  destruct (printMenu _ _) as [m1|] eqn:P; [|discriminate].
  intros H Hr. injection H as <-. simpl.
  now rewrite (printMenu_cache_other _ _ _ r P).
Qed.

(** [setNextActive] is [updateDisplay] on the menu with the new active
    index, followed by 16 blanks printed from column 0 of row 1. *)
Lemma setNextActive_inv m m' :
  setNextActive m = Some m' ->
  exists m1,
    updateDisplay
      (with_activeMenuIndex m
         (to_byte (adjustWrap (_activeMenuIndex m) 1 0 (_numMenuItems m - 1)))) = Some m1 /\
    m' = with_display m1
           (printList (Display.setCursor (_display m1) 0 1) (replicate 16 " "%char)).
Proof.
  unfold setNextActive.
  destruct (updateDisplay _) as [m1|]; [|discriminate].
  intros H. exists m1. split; [reflexivity|].
  injection H as <-. reflexivity.
Qed.

End Writes.

(** X18.  [updateDisplay] keeps the row cache and the display in step:
    if every row shows its cached string (filled up with blanks) before
    the call, so it does afterwards, and row 0 then shows the rendered
    row. *)
Theorem updateDisplay_keeps_cache_coherent (m m' : Menu.FullLcdMenu) :
  Display.wellShaped (Menu._display m) ->
  Menu.coherent m ->
  Menu.labelsFit m ->
  0 <= Menu._longestDisplay m ->
  Menu.updateDisplay m = Some m' ->
  Menu.coherent m' /\
  exists row, Menu._lastDisplay m' !! 0%nat = Some row /\
    Display.shown (Menu._display m') 0 = Some (list_ascii_of_string row).
Proof.
  intros Hshape Hcoh Hfit Hlong Hu.
  destruct (Menu.buildMenuString (Menu._menuItems m) 0 (Menu._activeMenuIndex m)
              EmptyString 0 0) as [[menuString offsetToActive]|] eqn:Hb.
  2: { unfold Menu.updateDisplay in Hu. rewrite Hb in Hu. discriminate. }
  pose proof (buildMenuString_offset _ _ _ Hfit Hb) as Hoff.
  pose proof (updateDisplay_row _ _ _ _ Hb Hu) as Hrow.
  pose proof (menuRow_length menuString offsetToActive _ Hoff Hlong) as Hlen.
  assert (Hc : Menu.coherent m').
  { unfold Menu.updateDisplay in Hu. rewrite Hb in Hu.
    destruct (Menu.printMenu _ _) as [m1|] eqn:P; [|discriminate].
    injection Hu as <-.
    apply printMenu_coherent_step in P; [exact P | exact Hshape | exact Hcoh
                                         | reflexivity | simpl; lia]. }
  split; [exact Hc|]. eexists. split; [exact Hrow|].
  rewrite (Hc _ _ Hrow). unfold Menu.padded. rewrite Hlen. simpl.
  now rewrite app_nil_r.
Qed.

Lemma updateDisplay_keeps_cache_coherent_witness :
  Menu.coherent Examples.abcUpdated /\
  exists row, Menu._lastDisplay Examples.abcUpdated !! 0%nat = Some row /\
    Display.shown (Menu._display Examples.abcUpdated) 0 = Some (list_ascii_of_string row).
Proof.
  apply (updateDisplay_keeps_cache_coherent Examples.abcMenu Examples.abcUpdated).
  - unfold Display.wellShaped. vm_compute. repeat constructor.
  - coherent_by_rows.
  - unfold Menu.labelsFit. vm_compute. repeat constructor.
  - vm_compute. discriminate.
  - vm_compute. reflexivity.
Defined.

(** X19.  Repainting an unchanged menu costs one backend call: a second
    [updateDisplay] right after a first one sends [setCursor(0, 0)] and
    no character, and leaves the menu's own members as they are. *)
Theorem updateDisplay_twice (m m1 : Menu.FullLcdMenu) :
  Menu.updateDisplay m = Some m1 ->
  exists m2,
    Menu.updateDisplay m1 = Some m2 /\
    Display.calls (Menu._display m2)
      = Display.OpSetCursor 0 0 :: Display.calls (Menu._display m1) /\
    Display.screen (Menu._display m2) = Display.screen (Menu._display m1) /\
    Menu._lastDisplay m2 = Menu._lastDisplay m1 /\
    Menu._activeRow m2 = Menu._activeRow m1 /\
    Menu._activeCol m2 = Menu._activeCol m1.
Proof.
  intros Hu.
  destruct (updateDisplay_frame _ _ Hu) as (_ & Hi & Ha & Hl & Hr & Hc & _).
  destruct (Menu.buildMenuString (Menu._menuItems m) 0 (Menu._activeMenuIndex m)
              EmptyString 0 0) as [[menuString offsetToActive]|] eqn:Hb.
  2: { unfold Menu.updateDisplay in Hu. rewrite Hb in Hu. discriminate. }
  pose proof (updateDisplay_row _ _ _ _ Hb Hu) as Hrow.
  unfold Menu.updateDisplay. rewrite Hi, Ha, Hb.
  unfold Menu.printMenu.
  cbn [Menu.with_cursor Menu.with_display Menu._lastDisplay Menu._activeRow
       Menu._activeCol Menu._longestDisplay].
  change (Z.to_nat 0) with 0%nat. rewrite Hrow, Hl, String.eqb_refl.
  cbn [negb orb Z.eqb].
  eexists. split; [reflexivity|]. simpl. rewrite Hr, Hc. repeat split.
Qed.

Lemma updateDisplay_twice_witness :
  exists m2,
    Menu.updateDisplay Examples.abcUpdated = Some m2 /\
    Display.calls (Menu._display m2)
      = Display.OpSetCursor 0 0 :: Display.calls (Menu._display Examples.abcUpdated) /\
    Display.screen (Menu._display m2) = Display.screen (Menu._display Examples.abcUpdated) /\
    Menu._lastDisplay m2 = Menu._lastDisplay Examples.abcUpdated /\
    Menu._activeRow m2 = Menu._activeRow Examples.abcUpdated /\
    Menu._activeCol m2 = Menu._activeCol Examples.abcUpdated.
Proof.
  apply (updateDisplay_twice Examples.abcMenu Examples.abcUpdated).
  vm_compute. reflexivity.
Defined.

(** X20.  [setNextActive] blanks row 1 of the display behind the back of
    the row cache: afterwards row 1 shows blanks, its cache entry is
    what it was, and a [printMenu] of the text cached for row 1 is
    skipped, so that the row stays blank. *)
Theorem setNextActive_blanks_row1 (m m' : Menu.FullLcdMenu) :
  Layout.sound m ->
  Menu.setNextActive m = Some m' ->
  Display.shown (Menu._display m') 1 = Some Display.blankRow /\
  Menu._lastDisplay m' !! 1%nat = Menu._lastDisplay m !! 1%nat /\
  forall line, Menu._lastDisplay m !! 1%nat = Some line ->
    Menu.printMenu m' line = Some m'.
Proof.
  intros (Hc & Hs & Hw & _) Hn.
  destruct (setNextActive_inv _ _ Hn) as (m1 & Hu & ->). clear Hn.
  destruct (updateDisplay_frame _ _ Hu) as (_ & _ & _ & _ & Hr & Hcol & _ & Hs1 & Hw1).
  pose proof (updateDisplay_cache_other _ _ 1%nat Hu ltac:(lia)) as Hcache.
  specialize (Hw1 Hw).
  cbn [Menu._display Menu.with_activeMenuIndex Menu._lastDisplay] in Hs1, Hcache.
  assert (Hrow1 : is_Some (Display.screen (Menu._display m1) !! 1%nat)).
  { apply lookup_lt_is_Some. rewrite Hs1, Hs. vm_compute. lia. }
  destruct Hrow1 as [cur Hcur].
  assert (Hlen : length cur = 16%nat).
  { unfold Display.wellShaped in Hw1. rewrite Forall_lookup in Hw1. exact (Hw1 _ _ Hcur). }
  split; [|split].
  - unfold Display.shown. cbn [Menu._display Menu.with_display].
    rewrite (printList_row _ (Display.setCursor (Menu._display m1) 0 1) cur).
    + cbn [Display.tx Display.ty Display.setCursor Display.screen].
      change (Z.to_nat 0) with 0%nat. change (Z.to_nat 1) with 1%nat.
      rewrite take_0, length_replicate.
      rewrite drop_ge by (rewrite Hlen; lia).
      rewrite app_nil_r. cbn [app].
      apply list_lookup_insert_eq. eapply lookup_lt_Some. exact Hcur.
    + exact Hcur.
    + exact Hlen.
    + rewrite length_replicate. cbn [Display.tx Display.setCursor]. lia.
  - exact Hcache.
  - intros line Hline. unfold Menu.printMenu.
    cbn [Menu._lastDisplay Menu._activeRow Menu._activeCol Menu.with_display].
    rewrite Hr, Hcol. change (Z.to_nat 1) with 1%nat.
    rewrite Hcache, Hline, String.eqb_refl. reflexivity.
Qed.

Lemma setNextActive_blanks_row1_witness :
  Display.shown (Menu._display Examples.abcNext) 1 = Some Display.blankRow /\
  Menu._lastDisplay Examples.abcNext !! 1%nat = Menu._lastDisplay Examples.abcSubmenu !! 1%nat /\
  forall line, Menu._lastDisplay Examples.abcSubmenu !! 1%nat = Some line ->
    Menu.printMenu Examples.abcNext line = Some Examples.abcNext.
Proof.
  apply (setNextActive_blanks_row1 Examples.abcSubmenu Examples.abcNext).
  - unfold Layout.sound. vm_compute.
    repeat split; first [discriminate | repeat constructor | (left; reflexivity)].
  - vm_compute. reflexivity.
Defined.

(** X21.  The backend traffic of [printMenu].  A call either changes
    nothing (the text is the one cached for the row and the menu cursor
    is at column 0), or it caches the text and sends exactly one
    [setCursor] to the menu's cursor followed by the characters of the
    text and then blanks up to 16 characters in all; a text of 16
    characters or more is sent whole, without blanks. *)
Theorem printMenu_backend_calls (m m' : Menu.FullLcdMenu) (line : string) :
  Menu.printMenu m line = Some m' ->
  (m' = m /\ Menu._activeCol m = 0 /\
   Menu._lastDisplay m !! Z.to_nat (Menu._activeRow m) = Some line) \/
  (Display.calls (Menu._display m')
     = Layout.printMenuCalls (Menu._activeCol m) (Menu._activeRow m) line
       ++ Display.calls (Menu._display m) /\
   Menu._lastDisplay m'
     = <[Z.to_nat (Menu._activeRow m) := line]> (Menu._lastDisplay m) /\
   length (Layout.printMenuCalls (Menu._activeCol m) (Menu._activeRow m) line)
     = S (Nat.max 16 (String.length line))).
Proof.
  unfold Menu.printMenu.
  destruct (Menu._lastDisplay m !! Z.to_nat (Menu._activeRow m)) as [last|] eqn:L;
    [|discriminate].
  destruct (String.eqb_spec last line) as [->|Hne]; cbn [negb orb].
  - destruct (Z.eqb_spec (Menu._activeCol m) 0) as [Hc|Hc]; cbn [negb];
      intros H; injection H as <-.
    + left. auto.
    + right. cbn [Menu._display Menu.with_display Menu.with_lastDisplay Menu._lastDisplay].
      rewrite printMenu_display, printList_calls.
      unfold Layout.printMenuCalls. cbn [Display.calls Display.setCursor].
      rewrite <- app_assoc. repeat split.
      rewrite length_app, length_rev, length_fmap. unfold Menu.padded.
      rewrite length_app, list_ascii_length, length_replicate, columns_nat. simpl. lia.
  - intros H; injection H as <-. right.
    cbn [Menu._display Menu.with_display Menu.with_lastDisplay Menu._lastDisplay].
    rewrite printMenu_display, printList_calls.
    unfold Layout.printMenuCalls. cbn [Display.calls Display.setCursor].
    rewrite <- app_assoc. repeat split.
    rewrite length_app, length_rev, length_fmap. unfold Menu.padded.
    rewrite length_app, list_ascii_length, length_replicate, columns_nat. simpl. lia.
Qed.

Lemma printMenu_backend_calls_witness :
  (Examples.abcSubmenu = Examples.abcUpdated /\ Menu._activeCol Examples.abcUpdated = 0 /\
   Menu._lastDisplay Examples.abcUpdated !! Z.to_nat (Menu._activeRow Examples.abcUpdated)
     = Some "Hi"%string) \/
  (Display.calls (Menu._display Examples.abcSubmenu)
     = Layout.printMenuCalls (Menu._activeCol Examples.abcUpdated)
         (Menu._activeRow Examples.abcUpdated) "Hi"
       ++ Display.calls (Menu._display Examples.abcUpdated) /\
   Menu._lastDisplay Examples.abcSubmenu
     = <[Z.to_nat (Menu._activeRow Examples.abcUpdated) := "Hi"%string]>
         (Menu._lastDisplay Examples.abcUpdated) /\
   length (Layout.printMenuCalls (Menu._activeCol Examples.abcUpdated)
             (Menu._activeRow Examples.abcUpdated) "Hi")
     = S (Nat.max 16 (String.length "Hi"))).
Proof.
  apply (printMenu_backend_calls Examples.abcUpdated Examples.abcSubmenu "Hi").
  vm_compute. reflexivity.
Defined.

(** X22.  [printMenu] indexes the row cache with the menu's cursor row:
    on a menu with its two cache rows the call stays inside the array
    exactly when the cursor row is 0 or 1.  A newly constructed menu has
    cursor row 255, so [printMenu] before any [setCursor] or
    [updateDisplay] reads outside the array. *)
Theorem printMenu_needs_cursor_row (m : Menu.FullLcdMenu) (line : string) :
  length (Menu._lastDisplay m) = Z.to_nat Display.NUM_ROWS ->
  0 <= Menu._activeRow m ->
  (is_Some (Menu.printMenu m line) <-> Menu._activeRow m < Display.NUM_ROWS) /\
  forall maxItems, Menu.printMenu (Menu.create maxItems) line = None.
Proof.
  intros Hlen Hrow. split; [|reflexivity].
  unfold Menu.printMenu.
  destruct (Menu._lastDisplay m !! Z.to_nat (Menu._activeRow m)) as [last|] eqn:L.
  - apply lookup_lt_Some in L. rewrite Hlen in L.
    split; [intros _; unfold Display.NUM_ROWS in *; lia|].
    intros _. destruct (negb _ || negb _); eauto.
  - apply lookup_ge_None in L. rewrite Hlen in L.
    split; [intros [? H]; discriminate H | unfold Display.NUM_ROWS in *; lia].
Qed.

Lemma printMenu_needs_cursor_row_witness :
  (is_Some (Menu.printMenu Examples.abcUpdated "Hi")
     <-> Menu._activeRow Examples.abcUpdated < Display.NUM_ROWS) /\
  forall maxItems, Menu.printMenu (Menu.create maxItems) "Hi" = None.
Proof.
  apply (printMenu_needs_cursor_row Examples.abcUpdated "Hi").
  - reflexivity.
  - vm_compute. discriminate.
Defined.

(** X23.  [printAt] puts the character at the given column of the given
    row and touches nothing else on the screen; it sends one
    [setCursor] and one [printChar] and leaves the row cache and the
    menu's own cursor alone. *)
Theorem printAt_writes_one_cell (m : Menu.FullLcdMenu) (col row : Z) (ch : ascii)
    (cur : list ascii) :
  0 <= col < 256 -> 0 <= row < 256 ->
  Display.shown (Menu._display m) (Z.to_nat row) = Some cur ->
  Display.shown (Menu._display (Menu.printAt m col row ch)) (Z.to_nat row)
    = Some (<[Z.to_nat col := ch]> cur) /\
  (forall r, r <> Z.to_nat row ->
     Display.shown (Menu._display (Menu.printAt m col row ch)) r
     = Display.shown (Menu._display m) r) /\
  Display.calls (Menu._display (Menu.printAt m col row ch))
    = Display.OpPrintChar ch :: Display.OpSetCursor col row
        :: Display.calls (Menu._display m) /\
  Menu._lastDisplay (Menu.printAt m col row ch) = Menu._lastDisplay m /\
  Menu._activeRow (Menu.printAt m col row ch) = Menu._activeRow m /\
  Menu._activeCol (Menu.printAt m col row ch) = Menu._activeCol m.
Proof.
  intros Hc Hr Hcur. unfold Menu.printAt, Display.shown in *.
  cbn [Menu._display Menu.with_display Menu._lastDisplay Menu._activeRow Menu._activeCol].
  rewrite !to_byte_small by assumption.
  rewrite (printChar_screen _ ch cur) by exact Hcur.
  cbn [Display.tx Display.ty Display.setCursor Display.screen Display.calls Display.printChar].
  repeat split.
  - apply list_lookup_insert_eq. eapply lookup_lt_Some. exact Hcur.
  - intros r Hne. apply list_lookup_insert_ne. congruence.
Qed.

Lemma printAt_writes_one_cell_witness :
  Display.shown (Menu._display (Menu.printAt Examples.abcUpdated 15 0 "&")) 0
  = Some (list_ascii_of_string "A  BB >CCC<    &").
Proof.
  destruct (printAt_writes_one_cell Examples.abcUpdated 15 0 "&"
              (list_ascii_of_string "A  BB >CCC<     ")) as [H _];
    [lia | lia | reflexivity | exact H].
Defined.

(** X24.  The CGRAM slots of the eight reserved characters lie in 0..7
    and are pairwise different, and [translateChar] returns every other
    character as its own code. *)
Theorem translateChar_table :
  (forall ch, In ch Display.reserved -> 0 <= Display.translateChar ch < 8) /\
  (forall c1 c2, In c1 Display.reserved -> In c2 Display.reserved ->
     Display.translateChar c1 = Display.translateChar c2 -> c1 = c2) /\
  (forall ch, ~ In ch Display.reserved ->
     Display.translateChar ch = to_byte (Display.charCode ch)).
Proof.
  split; [|split].
  - intros ch H. exact (proj1 (translateChar_reserved ch H)).
  - simpl. intros c1 c2 H1 H2.
    repeat (destruct H1 as [<-|H1]; [|]); try contradiction;
      repeat (destruct H2 as [<-|H2]; [|]); try contradiction;
      vm_compute; intros E; first [reflexivity | discriminate E].
  - exact translateChar_other.
Qed.

(** X25.  Whatever the character, [SSD1306DisplayDevice::printChar]
    draws exactly one glyph at the text cursor, moves the cursor one
    column to the right (the column is a byte and wraps at 256) and
    never changes the row: the backend itself does not wrap to the next
    row. *)
Theorem SSD1306_printChar_advances (lcd : Display.U8X8) (ch : ascii) :
  Display.u8tx (Display.SSD1306_printChar lcd ch) = to_byte (Display.u8tx lcd + 1) /\
  Display.u8ty (Display.SSD1306_printChar lcd ch) = Display.u8ty lcd /\
  exists f code,
    Display.drawn (Display.SSD1306_printChar lcd ch)
      = (f, Display.draw1x2Glyph (Display.u8tx lcd) (Display.u8ty lcd) code)
          :: Display.drawn lcd \/
    Display.drawn (Display.SSD1306_printChar lcd ch)
      = (f, Display.drawGlyph (Display.u8tx lcd) (Display.u8ty lcd) code)
          :: Display.drawn lcd.
Proof.
  unfold Display.SSD1306_printChar.
  repeat (destruct (Ascii.eqb ch _);
          [repeat split; eexists; eexists; simpl;
           first [left; reflexivity | right; reflexivity]|]).
  repeat split; eexists; eexists; simpl; right; reflexivity.
Qed.
